(** * Invoice extraction service: a shallow embedding of [app.py]

    The development follows the source file top to bottom: the Python data
    the program manipulates (text, JSON values), the reply parser
    [parse_json], the progress simulation [simulate_progress], the item
    extractor [process_image] with its inner [clean_empty], and the two
    endpoints [get_progress] and [upload_image].  Library calls whose code is
    not part of the program (libmagic, the remote model, the clock, zipfile,
    Unicode lowercasing) are fields of the class [Collaborators]. *)

From Stdlib Require Import ZArith NArith Lia String Ascii.
From Stdlib Require Import Strings.Byte.
From Stdlib Require Import Floats.SpecFloat.
From stdpp Require Import prelude.

Set Default Proof Using "Type".
Local Open Scope N_scope.

(** ** Python text

    A Python [str] is a sequence of Unicode code points. *)

Definition str := list N.

(** Text literal written in Rocq's own string syntax.  A single quote in the
    literal stands for the double quote character of the Python text, which
    keeps JSON samples readable. *)
Definition lit_char (a : ascii) : N :=
  let n := N_of_ascii a in if n =? 39 then 34 else n.

Fixpoint lit (s : string) : str :=
  match s with
  | EmptyString => []
  | String a s' => lit_char a :: lit s'
  end.

Definition str_eqb (a b : str) : bool := bool_decide (a = b).

(** [s.startswith(p)] *)
Fixpoint startswith (s p : str) : bool :=
  match p, s with
  | [], _ => true
  | _ :: _, [] => false
  | c :: p', d :: s' => (c =? d) && startswith s' p'
  end.

(** [s.endswith(p)] *)
Definition endswith (s p : str) : bool := startswith (rev s) (rev p).

(** [p in s] for two strings: [p] occurs as a contiguous run of [s]. *)
Fixpoint contains (s p : str) : bool :=
  startswith s p ||
  match s with
  | [] => false
  | _ :: s' => contains s' p
  end.

(** [str.isspace] on one code point, which is what [\s] tests in a pattern
    compiled from a [str]. *)
Definition isspace (c : N) : bool :=
  ((9 <=? c) && (c <=? 13)) || ((28 <=? c) && (c <=? 32)) ||
  (c =? 133) || (c =? 160) || (c =? 5760) ||
  ((8192 <=? c) && (c <=? 8202)) || (c =? 8232) || (c =? 8233) ||
  (c =? 8239) || (c =? 8287) || (c =? 12288).

(** ** Python values

    The objects [json.loads] can build, which are all the objects the
    program handles: [None], [bool], [int], [float], [str], [list] and
    [dict].  A [dict] keeps its items in insertion order. *)

Unset Elimination Schemes.
Inductive value : Type :=
  | VNone
  | VBool (b : bool)
  | VInt (z : Z)
  | VFloat (f : spec_float)
  | VStr (s : str)
  | VList (items : list value)
  | VDict (items : list (str * value)).
Set Elimination Schemes.

(** IEEE binary64, the format of a Python [float]. *)
Definition prec64 : Z := 53.
Definition emax64 : Z := 1024.

Definition float_zero : spec_float := S754_zero false.

(** [d[k]] as a lookup that may miss. *)
Fixpoint dict_get (d : list (str * value)) (k : str) : option value :=
  match d with
  | [] => None
  | (k', v) :: d' => if str_eqb k' k then Some v else dict_get d' k
  end.

(** [d[k] = v] on the items of a dict: an existing key keeps its position
    and takes the new value, a new key goes last. *)
Fixpoint dict_set (d : list (str * value)) (k : str) (v : value)
  : list (str * value) :=
  match d with
  | [] => [(k, v)]
  | (k', v') :: d' =>
      if str_eqb k' k then (k', v) :: d' else (k', v') :: dict_set d' k v
  end.

(** [x == y] where [y] is one of the five members of the tuple
    [("", None, [], {}, 0)].  Comparing with [0] is numeric: [False] and
    both float zeros are equal to it. *)
Inductive empty_const := EStr | ENone | EList | EDict | EZero.

Definition empty_consts : list empty_const := [EStr; ENone; EList; EDict; EZero].

Definition py_eq_const (v : value) (c : empty_const) : bool :=
  match c, v with
  | EStr, VStr [] => true
  | ENone, VNone => true
  | EList, VList [] => true
  | EDict, VDict [] => true
  | EZero, VInt z => Z.eqb z 0
  | EZero, VBool b => negb b
  | EZero, VFloat f => SFeqb f float_zero
  | _, _ => false
  end.

(** [v in ("", None, [], {}, 0)] *)
Definition in_empties (v : value) : bool :=
  existsb (py_eq_const v) empty_consts.

(** Truth value of an object, as tested by [if data:] and [if result:]. *)
Definition truthy (v : value) : bool :=
  match v with
  | VNone => false
  | VBool b => b
  | VInt z => negb (Z.eqb z 0)
  | VFloat f => negb (SFeqb f float_zero)
  | VStr s => match s with [] => false | _ :: _ => true end
  | VList l => match l with [] => false | _ :: _ => true end
  | VDict d => match d with [] => false | _ :: _ => true end
  end.

(** ** The field normalizer, [clean_empty]

    The two comprehensions filter on the item as it is in the input ([v],
    [i]) and recurse on the items that pass. *)
Fixpoint clean_empty (d : value) : value :=
  match d with
  | VDict items =>
      VDict ((fix go (kvs : list (str * value)) : list (str * value) :=
                match kvs with
                | [] => []
                | (k, v) :: kvs' =>
                    if negb (in_empties v) then (k, clean_empty v) :: go kvs'
                    else go kvs'
                end) items)
  | VList items =>
      VList ((fix go (l : list value) : list value :=
                match l with
                | [] => []
                | i :: l' =>
                    if negb (in_empties i) then clean_empty i :: go l'
                    else go l'
                end) items)
  | _ => d
  end.

(** ** [json.loads]

    The decoder of Python's [json] package with its default settings
    ([strict] strings, [NaN] and [Infinity] accepted, duplicate keys resolved
    by [dict(pairs)]).  [None] stands for a raised [JSONDecodeError]: the only
    caller catches every exception and discards the message.  Two limits of
    the interpreter are left out, the bound on the number of digits of an
    [int] literal and the bound on the depth of recursion; both turn a
    decodable text into an exception, that is into [None]. *)

Module Json.

Definition is_ws (c : N) : bool :=
  (c =? 32) || (c =? 9) || (c =? 10) || (c =? 13).

Fixpoint skip_ws (s : str) : str :=
  match s with
  | c :: s' => if is_ws c then skip_ws s' else s
  | [] => []
  end.

Definition is_digit (c : N) : bool := (48 <=? c) && (c <=? 57).

Definition hex_digit (c : N) : option N :=
  if is_digit c then Some (c - 48)
  else if (65 <=? c) && (c <=? 70) then Some (c - 55)
  else if (97 <=? c) && (c <=? 102) then Some (c - 87)
  else None.

Definition hex4 (a b c d : N) : option N :=
  match hex_digit a, hex_digit b, hex_digit c, hex_digit d with
  | Some x, Some y, Some z, Some w => Some (((x * 16 + y) * 16 + z) * 16 + w)
  | _, _, _, _ => None
  end.

(** The table [BACKSLASH] of one-letter escapes. *)
Definition backslash (c : N) : option N :=
  if c =? 34 then Some 34
  else if c =? 92 then Some 92
  else if c =? 47 then Some 47
  else if c =? 98 then Some 8
  else if c =? 102 then Some 12
  else if c =? 110 then Some 10
  else if c =? 114 then Some 13
  else if c =? 116 then Some 9
  else None.

Definition is_high_surrogate (u : N) : bool := (55296 <=? u) && (u <=? 56319).
Definition is_low_surrogate (u : N) : bool := (56320 <=? u) && (u <=? 57343).
Definition join_surrogates (hi lo : N) : N :=
  65536 + (((hi - 55296) * 1024) + (lo - 56320)).

(** [scanstring]: the input starts after the opening quote; the result is
    the decoded text and the input left after the closing quote. *)
Fixpoint scanstring (s : str) : option (str * str) :=
  match s with
  | [] => None
  | c :: s1 =>
      if c =? 34 then Some ([], s1)
      else if c =? 92 then
        match s1 with
        | [] => None
        | e :: s2 =>
            if e =? 117 then
              match s2 with
              | a :: b :: c' :: d :: s3 =>
                  match hex4 a b c' d with
                  | None => None
                  | Some uni =>
                      let single :=
                        match scanstring s3 with
                        | Some (t, r) => Some (uni :: t, r)
                        | None => None
                        end in
                      if is_high_surrogate uni then
                        match s3 with
                        | b1 :: u1 :: a2 :: b2 :: c2 :: d2 :: s4 =>
                            if (b1 =? 92) && (u1 =? 117) then
                              match hex4 a2 b2 c2 d2 with
                              | None => None
                              | Some uni2 =>
                                  if is_low_surrogate uni2 then
                                    match scanstring s4 with
                                    | Some (t, r) =>
                                        Some (join_surrogates uni uni2 :: t, r)
                                    | None => None
                                    end
                                  else single
                              end
                            else single
                        | _ => single
                        end
                      else single
                  end
              | _ => None
              end
            else
              match backslash e with
              | None => None
              | Some ch =>
                  match scanstring s2 with
                  | Some (t, r) => Some (ch :: t, r)
                  | None => None
                  end
              end
        end
      else if c <? 32 then None
      else
        match scanstring s1 with
        | Some (t, r) => Some (c :: t, r)
        | None => None
        end
  end.

(** Longest run of decimal digits at the head of the input. *)
Fixpoint span_digits (s : str) : str * str :=
  match s with
  | c :: s' =>
      if is_digit c then let '(ds, r) := span_digits s' in (c :: ds, r)
      else ([], s)
  | [] => ([], [])
  end.

Definition digits_value (ds : str) : Z :=
  fold_left (fun acc c => (acc * 10 + Z.of_N (c - 48))%Z) ds 0%Z.

(** [float(text)] for a JSON number with digits [ds] (integer and fraction
    part together), decimal exponent [e10] and sign [neg]: the binary64
    nearest to [ds * 10^e10], ties to even. *)
Definition float_of_decimal (neg : bool) (ds : str) (e10 : Z) : spec_float :=
  match digits_value ds with
  | Zpos m =>
      if (0 <=? e10)%Z then
        binary_normalize prec64 emax64
          (if neg then Z.neg (m * Z.to_pos (10 ^ e10)) else Z.pos (m * Z.to_pos (10 ^ e10)))
          0 false
      else
        SFdiv prec64 emax64 (S754_finite neg m 0)
          (S754_finite false (Z.to_pos (10 ^ (- e10))) 0)
  | _ => S754_zero neg
  end.

(** [NUMBER_RE.match]: an optional minus sign and an integer part (a lone
    zero, or a non-zero digit and more digits); then, if present, a dot with
    at least one digit; then, if present, [e] or [E], an optional sign and at
    least one digit.  Each part returns what it read and the input left. *)
Definition number_sign (s : str) : bool * str :=
  match s with
  | c :: t => if c =? 45 then (true, t) else (false, s)
  | [] => (false, s)
  end.

Definition number_integer (s : str) : option (str * str) :=
  match s with
  | c :: t =>
      if c =? 48 then Some ([c], t)
      else if is_digit c then let '(ds, r) := span_digits t in Some (c :: ds, r)
      else None
  | [] => None
  end.

Definition number_frac (s : str) : option str * str :=
  match s with
  | p :: d :: _ =>
      if (p =? 46) && is_digit d then
        let '(fs, r) := span_digits (tail s) in (Some fs, r)
      else (None, s)
  | _ => (None, s)
  end.

Definition number_exp (s : str) : option Z * str :=
  match s with
  | e :: t =>
      if (e =? 101) || (e =? 69) then
        let '(eneg, t') := match t with
                           | sg :: t1 =>
                               if sg =? 45 then (true, t1)
                               else if sg =? 43 then (false, t1)
                               else (false, t)
                           | [] => (false, t)
                           end in
        match t' with
        | d :: _ =>
            if is_digit d then
              let '(es, r) := span_digits t' in
              (Some (if eneg then (- digits_value es)%Z else digits_value es), r)
            else (None, s)
        | [] => (None, s)
        end
      else (None, s)
  | [] => (None, s)
  end.

(** The number is an [int] when there is neither fraction nor exponent and
    a [float] otherwise. *)
Definition match_number (s : str) : option (value * str) :=
  let '(neg, s1) := number_sign s in
  match number_integer s1 with
  | None => None
  | Some (ids, r1) =>
      let '(frac, r2) := number_frac r1 in
      let '(exp, r3) := number_exp r2 in
      match frac, exp with
      | None, None =>
          Some (VInt (if neg then (- digits_value ids)%Z else digits_value ids), r3)
      | _, _ =>
          let fs := default [] frac in
          let e := default 0%Z exp in
          Some (VFloat (float_of_decimal neg (ids ++ fs)
                          (e - Z.of_nat (length fs))%Z), r3)
      end
  end.

(** [dict(pairs)]: a repeated key keeps its first position and its last
    value. *)
Definition dict_of_pairs (pairs : list (str * value)) : list (str * value) :=
  fold_left (fun d kv => dict_set d (fst kv) (snd kv)) pairs [].

(** [scan_once], [JSONObject] and [JSONArray].  The fuel bounds the depth of
    the calls.  A call is made with one unit less and, at most two calls
    later, on a shorter input, so twice the length of the input is enough
    (lemma [scan_once_fuel]). *)
Fixpoint scan_once (fuel : nat) (s : str) : option (value * str) :=
  match fuel with
  | O => None
  | S fuel' =>
      match s with
      | [] => None
      | c :: s1 =>
          if c =? 34 then
            match scanstring s1 with
            | Some (t, r) => Some (VStr t, r)
            | None => None
            end
          else if c =? 123 then
            match skip_ws s1 with
            | c1 :: r1 =>
                if c1 =? 125 then Some (VDict [], r1)
                else if c1 =? 34 then
                  match object_pairs fuel' r1 [] with
                  | Some (pairs, r) => Some (VDict (dict_of_pairs pairs), r)
                  | None => None
                  end
                else None
            | [] => None
            end
          else if c =? 91 then
            match skip_ws s1 with
            | c1 :: r1 =>
                if c1 =? 93 then Some (VList [], r1)
                else
                  match array_items fuel' (c1 :: r1) [] with
                  | Some (values, r) => Some (VList values, r)
                  | None => None
                  end
            | [] => None
            end
          else if (c =? 110) && startswith s (lit "null") then Some (VNone, drop 4 s)
          else if (c =? 116) && startswith s (lit "true") then Some (VBool true, drop 4 s)
          else if (c =? 102) && startswith s (lit "false") then Some (VBool false, drop 5 s)
          else
            match match_number s with
            | Some r => Some r
            | None =>
                if (c =? 78) && startswith s (lit "NaN") then
                  Some (VFloat S754_nan, drop 3 s)
                else if (c =? 73) && startswith s (lit "Infinity") then
                  Some (VFloat (S754_infinity false), drop 8 s)
                else if (c =? 45) && startswith s (lit "-Infinity") then
                  Some (VFloat (S754_infinity true), drop 9 s)
                else None
            end
      end
  end
with object_pairs (fuel : nat) (s : str) (pairs : list (str * value))
  : option (list (str * value) * str) :=
  match fuel with
  | O => None
  | S fuel' =>
      match scanstring s with
      | None => None
      | Some (key, r) =>
          match skip_ws r with
          | c :: r1 =>
              if c =? 58 then
                match scan_once fuel' (skip_ws r1) with
                | None => None
                | Some (v, r2) =>
                    let pairs' := pairs ++ [(key, v)] in
                    match skip_ws r2 with
                    | c2 :: r3 =>
                        if c2 =? 125 then Some (pairs', r3)
                        else if c2 =? 44 then
                          match skip_ws r3 with
                          | c3 :: r4 =>
                              if c3 =? 34 then object_pairs fuel' r4 pairs'
                              else None
                          | [] => None
                          end
                        else None
                    | [] => None
                    end
                end
              else None
          | [] => None
          end
      end
  end
with array_items (fuel : nat) (s : str) (values : list value)
  : option (list value * str) :=
  match fuel with
  | O => None
  | S fuel' =>
      match scan_once fuel' s with
      | None => None
      | Some (v, r) =>
          let values' := values ++ [v] in
          match skip_ws r with
          | c :: r1 =>
              if c =? 93 then Some (values', r1)
              else if c =? 44 then array_items fuel' (skip_ws r1) values'
              else None
          | [] => None
          end
      end
  end.

Definition enough_fuel (s : str) : nat := S (2 * length s).

(** [json.loads(s)] for a [str]: a leading byte order mark is refused, then
    one value is decoded between optional whitespace and nothing may
    follow. *)
Definition loads (s : str) : option value :=
  if startswith s [65279] then None
  else
    match scan_once (enough_fuel s) (skip_ws s) with
    | Some (v, r) => match skip_ws r with [] => Some v | _ :: _ => None end
    | None => None
    end.

End Json.

(** ** The two patterns of [parse_json]

    [re.search] tries the start positions from the left and returns the
    first match of the backtracking matcher.  Both patterns are compiled
    with [re.DOTALL], so the dot matches every character. *)

Module Re.

(** Greedy [\s*].  The construct that follows it in the pattern never
    matches a whitespace character, so no shorter run can succeed. *)
Fixpoint skip_space (s : str) : str :=
  match s with
  | c :: s' => if isspace c then skip_space s' else s
  | [] => []
  end.

Definition fence_open : str := lit "```json".
Definition fence_close : str := lit "```".

(** What must follow the closing brace of the fenced pattern: whitespace,
    then the closing fence. *)
Definition closes (s : str) : bool := startswith (skip_space s) fence_close.

(** Lazy [.*?] followed by the closing brace and the closing fence: the
    shortest run of characters after which a closing brace stands that
    [closes].  The input starts after the opening brace. *)
Fixpoint lazy_body (s : str) : option str :=
  match s with
  | [] => None
  | c :: s' =>
      if (c =? 125) && closes s' then Some []
      else option_map (cons c) (lazy_body s')
  end.

(** The fenced pattern anchored at the head of the input; the result is
    group 1, braces included. *)
Definition match_fenced (s : str) : option str :=
  if startswith s fence_open then
    match skip_space (drop (length fence_open) s) with
    | c :: s' =>
        if c =? 123 then option_map (fun b => 123 :: b ++ [125]) (lazy_body s')
        else None
    | [] => None
    end
  else None.

(** [re.search] with the fenced pattern, group 1. *)
Fixpoint search_fenced (s : str) : option str :=
  match match_fenced s with
  | Some g => Some g
  | None =>
      match s with
      | [] => None
      | _ :: s' => search_fenced s'
      end
  end.

(** Greedy [.*] followed by a closing brace: the longest run of characters
    after which a closing brace stands. *)
Fixpoint greedy_body (s : str) : option str :=
  match s with
  | [] => None
  | c :: s' =>
      match greedy_body s' with
      | Some b => Some (c :: b)
      | None => if c =? 125 then Some [] else None
      end
  end.

(** [re.search] with the brace pattern, group 0. *)
Fixpoint search_braces (s : str) : option str :=
  match s with
  | [] => None
  | c :: s' =>
      if c =? 123 then
        match greedy_body s' with
        | Some b => Some (123 :: b ++ [125])
        | None => search_braces s'
        end
      else search_braces s'
  end.

End Re.

(** ** [parse_json]

    [None] from the decoder is the exception the [except] clause turns into
    [return None]; no match returns [None] as well. *)
Definition parse_json (text : str) : value :=
  let match_ :=
    if contains text Re.fence_open then Re.search_fenced text
    else Re.search_braces text in
  match match_ with
  | None => VNone
  | Some span =>
      match Json.loads span with
      | Some v => v
      | None => VNone
      end
  end.

(** ** Shared progress counter and [simulate_progress]

    [progress] is a module-level integer.  The request handler and the
    background thread touch it only through the actions below; how the two
    interleave is the transition system [Tracker] further down. *)
Inductive action :=
  | SetProgress (v : Z)   (* [progress = v] *)
  | ThreadStart           (* [progress_thread.start()] *)
  | ThreadJoin.           (* [progress_thread.join()] *)

(** The assignments [simulate_progress] performs, in order: [progress = i]
    for [i] in [range(1, 101)], each followed by a sleep of 20 ms. *)
Definition simulate_progress : list Z := map Z.of_nat (seq 1 100).

(** ** Effects of the request handler

    What the handler reads from outside the program is answered by the
    collaborators below, over a world [W] that records everything their
    answers may depend on.  An exception is its message, [str(e)]. *)
Definition bytes := list Byte.byte.
#[global] Instance byte_eq_decision : EqDecision Byte.byte := Byte.byte_eq_dec.
Definition exn := str.

Record Prompt := {
  instruction : str;
  mime_type : str;
  data : str
}.

Record ZipInfo := {
  zi_filename : str;               (* [zip_info.filename] *)
  zi_is_dir : bool;                (* [zip_info.is_dir()] *)
  zi_read : exn + bytes            (* [z.open(zip_info)] then [.read()] *)
}.

Record FileStorage := {
  filename : str;                  (* [file.filename] *)
  content : bytes                  (* [file.read()] *)
}.

Class Collaborators (W : Type) := {
  (** [magic.from_buffer(image_data, mime=True)] *)
  magic_from_buffer : bytes -> str;
  (** [model.generate_content(prompt)] followed by [response.text]; either
      may raise *)
  generate_content : Prompt -> W -> (exn + str) * W;
  (** [datetime.datetime.now(datetime.timezone.utc).isoformat()] *)
  utcnow_isoformat : W -> str * W;
  (** [zipfile.ZipFile(io.BytesIO(file_data))] with its [infolist()]; raises
      on bytes that are not an archive *)
  zipfile_open : bytes -> exn + list ZipInfo;
  (** [str.lower] *)
  str_lower : str -> str
}.

Record state (W : Type) := State {
  world : W;
  log : list action       (* actions on the shared counter, oldest first *)
}.
Arguments State {W} _ _.
Arguments world {W} _.
Arguments log {W} _.

(** State and exception monad.  The state survives a raised exception, as
    side effects do in Python. *)
Definition M (W A : Type) : Type := state W -> (exn + A) * state W.

Definition ret {W A} (a : A) : M W A := fun st => (inr a, st).
Definition raise {W A} (e : exn) : M W A := fun st => (inl e, st).
Definition bind {W A B} (m : M W A) (k : A -> M W B) : M W B :=
  fun st =>
    match m st with
    | (inr a, st') => k a st'
    | (inl e, st') => (inl e, st')
    end.
Definition lift {W A} (r : exn + A) : M W A := fun st => (r, st).
Definition emit {W} (a : action) : M W unit :=
  fun st => (inr tt, State (world st) (log st ++ [a])).
Definition ask {W A} (f : W -> A * W) : M W A :=
  fun st => let '(a, w) := f (world st) in (inr a, State w (log st)).
Definition ask_exn {W A} (f : W -> (exn + A) * W) : M W A :=
  fun st => let '(r, w) := f (world st) in (r, State w (log st)).

#[global] Instance M_ret {W} : MRet (M W) := @ret W.
#[global] Instance M_bind {W} : MBind (M W) := fun A B k m => bind m k.

(** [obj[key] = v]: defined on a dict, a [TypeError] on the other objects. *)
Definition setitem {W} (obj : value) (key : str) (v : value) : M W value :=
  match obj with
  | VDict d => ret (VDict (dict_set d key v))
  | VList _ => raise (lit "list indices must be integers or slices, not str")
  | _ => raise (lit "object does not support item assignment")
  end.

(** [base64.b64encode(image_data).decode("utf-8")] *)
Definition b64_char (n : N) : N :=
  if n <? 26 then 65 + n
  else if n <? 52 then 97 + (n - 26)
  else if n <? 62 then 48 + (n - 52)
  else if n =? 62 then 43
  else 47.

Fixpoint b64encode (bs : bytes) : str :=
  match bs with
  | [] => []
  | [a] =>
      let x := Byte.to_N a in
      [b64_char (x / 4); b64_char ((x mod 4) * 16); 61; 61]
  | [a; b] =>
      let x := Byte.to_N a in
      let y := Byte.to_N b in
      [b64_char (x / 4); b64_char ((x mod 4) * 16 + y / 16);
       b64_char ((y mod 16) * 4); 61]
  | a :: b :: c :: rest =>
      let x := Byte.to_N a in
      let y := Byte.to_N b in
      let z := Byte.to_N c in
      b64_char (x / 4) :: b64_char ((x mod 4) * 16 + y / 16) ::
      b64_char ((y mod 16) * 4 + z / 64) :: b64_char (z mod 64) ::
      b64encode rest
  end.

(** The instruction text of the prompt. *)
Definition extraction_prompt : str := lit
"You are an invoice data extractor. Extract the following fields in JSON format:
        {'vendor': {'name': '', 'company': ''}, 'invoice_no': '', 'date': '', 'due_date': '', 'vehicle_no': '',
        'bill_to': {'name': '', 'company': ''}, 'issued_to': {'name': '', 'company': ''}, 'items': [{'description': '', 'unit_price': 0, 'quantity': 0, 'total': 0, 'remark': ''}],
        'subtotal': 0, 'tax_percent': 0, 'total': 0}".

(** ** [process_image] *)
Definition process_image `{Collaborators W} (image_data : bytes) : M W value :=
  let mime := magic_from_buffer image_data in
  if negb (startswith mime (lit "image/")) then ret VNone
  else
    let image_base64 := b64encode image_data in
    let prompt := {| instruction := extraction_prompt;
                     mime_type := mime;
                     data := image_base64 |} in
    text ← ask_exn (generate_content prompt);
    let data := parse_json text in
    if truthy data then
      now ← ask utcnow_isoformat;
      data ← setitem data (lit "timestamp") (VStr now);
      ret (clean_empty data)
    else ret data.

(** ** [get_progress] and [upload_image] *)
Record response := Response {
  status : Z;
  body : value          (* the argument of [jsonify] *)
}.

Definition error_body (msg : str) : value := VDict [(lit "error", VStr msg)].

Definition get_progress (progress : Z) : response :=
  Response 200 (VDict [(lit "progress", VInt progress)]).

(** The three lines both branches of the loop end with:
    [if result: result["filename"] = name; results.append(result)]. *)
Definition append_result {W} (result : value) (name : str)
    (results : list value) : M W (list value) :=
  if truthy result then
    result' ← setitem result (lit "filename") (VStr name);
    ret (results ++ [result'])
  else ret results.

(** The loop over [z.infolist()]. *)
Fixpoint for_zip_infos `{Collaborators W} (infos : list ZipInfo)
    (results : list value) : M W (list value) :=
  match infos with
  | [] => ret results
  | zip_info :: infos' =>
      if zi_is_dir zip_info then for_zip_infos infos' results
      else
        image_bytes ← lift (zi_read zip_info);
        result ← process_image image_bytes;
        results' ← append_result result (zi_filename zip_info) results;
        for_zip_infos infos' results'
  end.

(** The loop over [files].  ([zip_mode] is assigned and never read.) *)
Fixpoint for_files `{Collaborators W} (files : list FileStorage)
    (results : list value) : M W (list value) :=
  match files with
  | [] => ret results
  | file :: files' =>
      let name := str_lower (filename file) in
      let file_data := content file in
      results' ← (if endswith name (lit ".zip") then
                    z ← lift (zipfile_open file_data);
                    for_zip_infos z results
                  else
                    result ← process_image file_data;
                    append_result result name results);
      for_files files' results'
  end.

Definition no_files_uploaded : str := lit "No files uploaded".
Definition no_valid_images : str := lit "No valid images found to process".
Definition processing_failed : str := lit "Invoice processing failed: ".

(** The body of the [try] block. *)
Definition upload_try `{Collaborators W} (files : list FileStorage)
  : M W response :=
  match files with
  | [] => ret (Response 400 (error_body no_files_uploaded))
  | _ :: _ =>
      emit ThreadStart;;
      results ← for_files files [];
      emit ThreadJoin;;
      match results with
      | [] => ret (Response 400 (error_body no_valid_images))
      | _ :: _ => ret (Response 200 (VDict [(lit "invoices", VList results)]))
      end
  end.

(** [upload_image]: the counter is reset, then the [try] block runs; the
    [except] clause answers any exception with status 500. *)
Definition upload_image `{Collaborators W} (files : list FileStorage)
    (st : state W) : response * state W :=
  let '(_, st0) := emit (SetProgress 0) st in
  match upload_try files st0 with
  | (inr r, st') => (r, st')
  | (inl e, st') => (Response 500 (error_body (processing_failed ++ e)), st')
  end.

(** ** The handler and the background thread side by side

    One upload in flight.  A configuration holds the shared counter, the
    actions the handler has still to perform (its response is returned once
    none is left) and the background thread: not started, or started with
    the assignments of [simulate_progress] it has still to make.  A step is
    one action of either party; [ThreadJoin] waits until the thread has
    nothing left.  [GET /progress] reads [progress] of the configuration it
    meets. *)

Module Tracker.

Record config := Config {
  progress : Z;
  handler : list action;
  advancer : option (list Z)
}.

Definition step_handler (c : config) : option config :=
  match handler c with
  | SetProgress v :: k => Some (Config v k (advancer c))
  | ThreadStart :: k =>
      match advancer c with
      | None => Some (Config (progress c) k (Some simulate_progress))
      | Some _ => None
      end
  | ThreadJoin :: k =>
      match advancer c with
      | Some [] => Some (Config (progress c) k (Some []))
      | _ => None
      end
  | [] => None
  end.

Definition step_advancer (c : config) : option config :=
  match advancer c with
  | Some (v :: ws) => Some (Config v (handler c) (Some ws))
  | _ => None
  end.

Definition step (c c' : config) : Prop :=
  step_handler c = Some c' \/ step_advancer c = Some c'.

(** Runs a schedule: [true] lets the handler move, [false] the thread.  A
    party that cannot move leaves the configuration as it is. *)
Fixpoint run (schedule : list bool) (c : config) : config :=
  match schedule with
  | [] => c
  | b :: schedule' =>
      let next := if b then step_handler c else step_advancer c in
      run schedule' (default c next)
  end.

(** The configuration at which a request arrives: the counter holds what
    earlier requests left in it. *)
Definition arrival (p : Z) (actions : list action) : config :=
  Config p actions None.

(** The counter is where the thread's remaining assignments say it is:
    0 before the thread starts; [n] once it has made [n] of its hundred
    assignments, with [n + 1] to [100] still to make.  The handler has no
    assignment of its own left. *)
Definition in_step (c : config) : Prop :=
  Forall (fun a => a = ThreadStart \/ a = ThreadJoin) (handler c) /\
  match advancer c with
  | None => progress c = 0%Z
  | Some ws =>
      exists n : nat,
        (n <= 100)%nat /\
        ws = map Z.of_nat (seq (S n) (100 - n)) /\
        progress c = Z.of_nat n
  end.

(** The handler answers only after a join that found the thread finished. *)
Definition joined (c : config) : Prop :=
  match handler c with
  | [] => advancer c = Some []
  | [ThreadJoin] => True
  | [ThreadStart; ThreadJoin] => True
  | _ => False
  end.

(** The schedule that lets the handler reset and start the thread, the
    thread run to its end, and the handler join. *)
Definition patient_schedule : list bool :=
  [true; true] ++ replicate 100 false ++ [true].

End Tracker.

(** ** The counter with threads left by earlier requests

    [progress_thread.join()] stands inside the [try] block, so a request
    that ends in the [except] clause answers without joining and leaves its
    thread writing.  A later request can meet it.  The system below is
    [Tracker] with those threads added: [earlier] holds, for each thread
    started by an earlier request, the assignments it has still to make. *)

Module Shared.

Record config := Config {
  progress : Z;
  handler : list action;
  advancer : option (list Z);
  earlier : list (list Z)
}.

(** The part of a configuration [Tracker] knows. *)
Definition forget (c : config) : Tracker.config :=
  Tracker.Config (progress c) (handler c) (advancer c).

Definition with_earlier (threads : list (list Z)) (t : Tracker.config) : config :=
  Config (Tracker.progress t) (Tracker.handler t) (Tracker.advancer t) threads.

Definition step_handler (c : config) : option config :=
  option_map (with_earlier (earlier c)) (Tracker.step_handler (forget c)).

Definition step_advancer (c : config) : option config :=
  option_map (with_earlier (earlier c)) (Tracker.step_advancer (forget c)).

(** One assignment of the [i]-th earlier thread. *)
Definition step_earlier (i : nat) (c : config) : option config :=
  match earlier c !! i with
  | Some (v :: ws) =>
      Some (Config v (handler c) (advancer c) (<[i := ws]> (earlier c)))
  | _ => None
  end.

Definition step (c c' : config) : Prop :=
  step_handler c = Some c' \/ step_advancer c = Some c' \/
  exists i, step_earlier i c = Some c'.

Inductive move :=
  | Handler             (* the handler of the request *)
  | Own                 (* the thread the request started *)
  | Earlier (i : nat).  (* a thread of an earlier request *)

Definition step_move (m : move) (c : config) : option config :=
  match m with
  | Handler => step_handler c
  | Own => step_advancer c
  | Earlier i => step_earlier i c
  end.

(** Runs a schedule; a party that cannot move leaves the configuration as
    it is. *)
Fixpoint run (schedule : list move) (c : config) : config :=
  match schedule with
  | [] => c
  | m :: schedule' => run schedule' (default c (step_move m c))
  end.

(** The counter after each move of a schedule: what a reader polling after
    every move is told. *)
Fixpoint reads (schedule : list move) (c : config) : list Z :=
  match schedule with
  | [] => []
  | m :: schedule' =>
      let c' := default c (step_move m c) in
      progress c' :: reads schedule' c'
  end.

Definition arrival (p : Z) (actions : list action) (threads : list (list Z))
  : config :=
  Config p actions None threads.

(** No thread of an earlier request is still running. *)
Definition quiet (c : config) : Prop := Forall (fun ws => ws = []) (earlier c).

Definition patient_schedule : list move :=
  [Handler; Handler] ++ replicate 100 Own ++ [Handler].

End Shared.

(** The actions one upload performs on the shared counter, and its
    response. *)
Definition upload_actions `{Collaborators W} (files : list FileStorage)
    (w : W) : list action :=
  log (snd (upload_image files (State w []))).

Definition upload_response `{Collaborators W} (files : list FileStorage)
    (w : W) : response :=
  fst (upload_image files (State w [])).

(** ** A scripted environment

    Test doubles for the collaborators, used to run the program on concrete
    requests: the world is the list of replies the remote model will give,
    one per call. *)

Module Demo.

(** The first sixteen bytes of a PNG file: the signature, then the length
    and the tag of the header chunk.  libmagic names a buffer that starts
    with them [image/png]. *)
Definition png_bytes : bytes :=
  [x89; x50; x4e; x47; x0d; x0a; x1a; x0a;
   x00; x00; x00; x0d; x49; x48; x44; x52].
Definition text_bytes : bytes := [x68; x65; x6c; x6c; x6f].
Definition archive_bytes : bytes := [x50; x4b; x03; x04].

Definition from_buffer (b : bytes) : str :=
  if bool_decide (take 16 b = png_bytes) then lit "image/png"
  else if bool_decide (take 4 b = archive_bytes) then lit "application/zip"
  else if bool_decide (b = []) then lit "application/x-empty"
  else lit "text/plain".

Definition ascii_lower (s : str) : str :=
  map (fun c => if (65 <=? c) && (c <=? 90) then c + 32 else c) s.

Definition open_archive (b : bytes) : exn + list ZipInfo :=
  if bool_decide (b = archive_bytes) then
    inr [ {| zi_filename := lit "scans/"; zi_is_dir := true; zi_read := inr [] |};
          {| zi_filename := lit "scans/a.png"; zi_is_dir := false;
             zi_read := inr png_bytes |};
          {| zi_filename := lit "scans/notes.txt"; zi_is_dir := false;
             zi_read := inr text_bytes |};
          {| zi_filename := lit "scans/B.JPG"; zi_is_dir := false;
             zi_read := inr png_bytes |} ]
  else inl (lit "File is not a zip file").

Definition replies := list (exn + str).

Definition next_reply (_ : Prompt) (w : replies) : (exn + str) * replies :=
  match w with
  | r :: w' => (r, w')
  | [] => (inl (lit "503 The model is overloaded"), [])
  end.

Definition clock (w : replies) : str * replies :=
  (lit "2024-05-01T10:00:00.000000+00:00", w).

#[global] Instance scripted : Collaborators replies := {|
  magic_from_buffer := from_buffer;
  generate_content := next_reply;
  utcnow_isoformat := clock;
  zipfile_open := open_archive;
  str_lower := ascii_lower
|}.

Definition fenced (body : str) : str :=
  lit "```json" ++ [10] ++ body ++ [10] ++ lit "```".

Definition upload (name : string) (b : bytes) : FileStorage :=
  {| filename := lit name; content := b |}.

End Demo.

(** ** Vocabulary of the statements *)

(** The test of both comprehensions of [clean_empty]. *)
Definition passes (v : value) : bool := negb (in_empties v).

(** The comprehensions of [clean_empty], written with [map] and [filter]. *)
Definition clean_items (items : list (str * value)) : list (str * value) :=
  map (fun kv => (fst kv, clean_empty (snd kv)))
      (List.filter (fun kv => passes (snd kv)) items).

Definition clean_elems (items : list value) : list value :=
  map clean_empty (List.filter passes items).

(** The empty string, [None], and what is equal to zero. *)
Definition scalar_empty (v : value) : bool :=
  py_eq_const v EStr || py_eq_const v ENone || py_eq_const v EZero.

(** [all_members p v]: every value held under a key of a mapping or as an
    element of a sequence, at every depth of [v], satisfies [p]. *)
Fixpoint all_members (p : value -> bool) (v : value) : bool :=
  match v with
  | VDict items =>
      (fix go (kvs : list (str * value)) : bool :=
         match kvs with
         | [] => true
         | (_, x) :: kvs' => p x && all_members p x && go kvs'
         end) items
  | VList items =>
      (fix go (l : list value) : bool :=
         match l with
         | [] => true
         | x :: l' => p x && all_members p x && go l'
         end) items
  | _ => true
  end.

(** Samples. *)
Definition sample_unfilled_vendor : value :=
  VDict [(lit "vendor", VDict [(lit "name", VStr []); (lit "company", VStr [])]);
         (lit "invoice_no", VStr (lit "A1"))].

(** [no_char c s]: the character [c] does not occur in [s]. *)
Definition no_char (c : N) (s : str) : bool := forallb (fun x => negb (x =? c)) s.

Definition all_space (s : str) : bool := forallb isspace s.

(** [early_close mid rest]: some closing brace of [mid] is followed, in
    [mid ++ rest], by optional whitespace and a closing fence. *)
Fixpoint early_close (mid rest : str) : bool :=
  match mid with
  | [] => false
  | c :: mid' => ((c =? 125) && Re.closes (mid' ++ rest)) || early_close mid' rest
  end.

(** A reply that holds [body] in a fence tagged json, and one that holds it
    bare. *)
Definition fenced_reply (pre ws1 body ws2 post : str) : str :=
  pre ++ Re.fence_open ++ ws1 ++ body ++ ws2 ++ Re.fence_close ++ post.

Definition plain_reply (pre body post : str) : str := pre ++ body ++ post.

Definition braced (mid : str) : str := 123 :: mid ++ [125].

(** The JSON text of an object whose one string value ends a fence. *)
Definition sample_fence_in_string : str := lit "{'note': 'see }```'}".

(** The prompt [process_image] sends for an image. *)
Definition prompt_for `{Collaborators W} (image_data : bytes) : Prompt :=
  {| instruction := extraction_prompt;
     mime_type := magic_from_buffer image_data;
     data := b64encode image_data |}.

(** The MIME gate of [process_image]. *)
Definition sniffed_as_image `{Collaborators W} (image_data : bytes) : bool :=
  startswith (magic_from_buffer image_data) (lit "image/").

(** The name a record carries, [record["filename"]]. *)
Definition record_name (v : value) : option str :=
  match v with
  | VDict d =>
      match dict_get d (lit "filename") with
      | Some (VStr s) => Some s
      | _ => None
      end
  | _ => None
  end.

(** The test that sends an upload to the archive branch. *)
Definition is_zip_name `{Collaborators W} (file : FileStorage) : bool :=
  endswith (str_lower (filename file)) (lit ".zip").

(** The names of the items of a batch, in processing order: the entries of
    an archive in listing order without its directories, in the place of the
    archive; the lowercased name of any other upload. *)
Definition entry_names (infos : list ZipInfo) : list str :=
  map zi_filename (List.filter (fun zi => negb (zi_is_dir zi)) infos).

Definition file_item_names `{Collaborators W} (file : FileStorage) : list str :=
  if is_zip_name file then
    match zipfile_open (content file) with
    | inr infos => entry_names infos
    | inl _ => []
    end
  else [str_lower (filename file)].

Fixpoint item_names `{Collaborators W} (files : list FileStorage) : list str :=
  match files with
  | [] => []
  | file :: files' => file_item_names file ++ item_names files'
  end.

(** The image bytes of the items of a batch, in processing order; [None]
    when an archive cannot be opened or one of its entries cannot be read. *)
Fixpoint entry_items (infos : list ZipInfo) : option (list bytes) :=
  match infos with
  | [] => Some []
  | zi :: infos' =>
      if zi_is_dir zi then entry_items infos'
      else
        match zi_read zi with
        | inr image_bytes => option_map (cons image_bytes) (entry_items infos')
        | inl _ => None
        end
  end.

Definition file_items `{Collaborators W} (file : FileStorage) : option (list bytes) :=
  if is_zip_name file then
    match zipfile_open (content file) with
    | inr infos => entry_items infos
    | inl _ => None
    end
  else Some [content file].

Fixpoint batch_items `{Collaborators W} (files : list FileStorage)
  : option (list bytes) :=
  match files with
  | [] => Some []
  | file :: files' =>
      match file_items file, batch_items files' with
      | Some items, Some items' => Some (items ++ items')
      | _, _ => None
      end
  end.

(** [every_item_fails items w = Some w']: taken in order from the world
    [w], each item either is not sniffed as an image, or is answered by the
    model with a reply that [parse_json] cannot parse; [w'] is the world
    after the last call. *)
Fixpoint every_item_fails `{Collaborators W} (items : list bytes) (w : W)
  : option W :=
  match items with
  | [] => Some w
  | image_data :: items' =>
      if sniffed_as_image image_data then
        match generate_content (prompt_for image_data) w with
        | (inr text, w') =>
            match parse_json text with
            | VNone => every_item_fails items' w'
            | _ => None
            end
        | (inl _, _) => None
        end
      else every_item_fails items' w
  end.

(** The state in which the loop over the files starts. *)
Definition loop_start {W} (st : state W) : state W :=
  State (world st) (log st ++ [SetProgress 0; ThreadStart]).

(** Sample requests for the scripted environment. *)
Module Samples.
Import Demo.

Definition mixed_batch : list FileStorage :=
  [upload "A.PNG" png_bytes; upload "notes.txt" text_bytes;
   upload "Scans.ZIP" archive_bytes].

Definition mixed_replies : replies :=
  [inr (fenced (lit "{'invoice_no': 'A1', 'subtotal': 0}"));
   inr (lit "Sure: {'invoice_no': 'B2', 'total': 40}");
   inr (lit "I cannot read this image.")].

Definition no_image_batch : list FileStorage :=
  [upload "notes.txt" text_bytes; upload "blurred.png" png_bytes].

Definition no_image_replies : replies := [inr (lit "I cannot read this image.")].

Definition corrupt_archive_batch : list FileStorage :=
  [upload "A.PNG" png_bytes; upload "Broken.Zip" text_bytes;
   upload "b.png" png_bytes].

Definition corrupt_archive_replies : replies :=
  [inr (fenced (lit "{'invoice_no': 'A1'}"));
   inr (fenced (lit "{'invoice_no': 'B2'}"))].

End Samples.

(** Nesting depth of a value: 0 for a scalar, one more than its deepest
    member for a list or a dict. *)
Fixpoint height (v : value) : nat :=
  match v with
  | VDict items =>
      S ((fix go (kvs : list (str * value)) : nat :=
            match kvs with
            | [] => O
            | (_, x) :: kvs' => Nat.max (height x) (go kvs')
            end) items)
  | VList items =>
      S ((fix go (l : list value) : nat :=
            match l with
            | [] => O
            | x :: l' => Nat.max (height x) (go l')
            end) items)
  | _ => O
  end.

(** [survives k x]: as a member of a container, [x] passes the filter in
    each of [k] successive applications of [clean_empty] to the container. *)
Fixpoint survives (k : nat) (x : value) : bool :=
  match k with
  | O => true
  | S k' => survives k' x && passes (Nat.iter k' clean_empty x)
  end.

(** The keys of a dict, in order. *)
Definition keys (d : list (str * value)) : list str := map fst d.

(** More test doubles: an archive one of whose entries cannot be read, and
    an archive that lists only directories. *)
Module Damaged.
Import Demo.

(** The message of the exception raised on reading an encrypted entry; the
    name is quoted with apostrophes. *)
Definition locked_message : exn :=
  lit "File " ++ [39] ++ lit "scans/locked.png" ++ [39] ++
  lit " is encrypted, password required for extraction".

Definition open_archive (b : bytes) : exn + list ZipInfo :=
  if bool_decide (b = archive_bytes) then
    inr [ {| zi_filename := lit "scans/a.png"; zi_is_dir := false;
             zi_read := inr png_bytes |};
          {| zi_filename := lit "scans/locked.png"; zi_is_dir := false;
             zi_read := inl locked_message |};
          {| zi_filename := lit "scans/b.png"; zi_is_dir := false;
             zi_read := inr png_bytes |} ]
  else inl (lit "File is not a zip file").

Definition scripted : Collaborators replies := {|
  magic_from_buffer := from_buffer;
  generate_content := next_reply;
  utcnow_isoformat := clock;
  zipfile_open := open_archive;
  str_lower := ascii_lower
|}.

Definition folders : list ZipInfo :=
  [ {| zi_filename := lit "scans/"; zi_is_dir := true;
       zi_read := inl (lit "Is a directory") |};
    {| zi_filename := lit "scans/2024/"; zi_is_dir := true;
       zi_read := inr [] |} ].

Definition open_folders (b : bytes) : exn + list ZipInfo :=
  if bool_decide (b = archive_bytes) then inr folders
  else inl (lit "File is not a zip file").

Definition scripted_folders : Collaborators replies := {|
  magic_from_buffer := from_buffer;
  generate_content := next_reply;
  utcnow_isoformat := clock;
  zipfile_open := open_folders;
  str_lower := ascii_lower
|}.

End Damaged.

(** [framed rs l run]: the outcome [run] of a loop started from no records
    and an empty log, as it reads when the loop starts from the records
    [rs] and the log [l]. *)
Definition framed {W A} (rs : list A) (l : list action)
    (run : (exn + list A) * state W) : (exn + list A) * state W :=
  match run with
  | (inr new, st') => (inr (rs ++ new), State (world st') l)
  | (inl e, st') => (inl e, State (world st') l)
  end.

(** The record the prompt shows the model as its template, every field
    empty. *)
Definition prompt_template : value :=
  VDict
    [(lit "vendor", VDict [(lit "name", VStr []); (lit "company", VStr [])]);
     (lit "invoice_no", VStr []); (lit "date", VStr []);
     (lit "due_date", VStr []); (lit "vehicle_no", VStr []);
     (lit "bill_to", VDict [(lit "name", VStr []); (lit "company", VStr [])]);
     (lit "issued_to", VDict [(lit "name", VStr []); (lit "company", VStr [])]);
     (lit "items",
      VList [VDict [(lit "description", VStr []); (lit "unit_price", VInt 0);
                    (lit "quantity", VInt 0); (lit "total", VInt 0);
                    (lit "remark", VStr [])]]);
     (lit "subtotal", VInt 0); (lit "tax_percent", VInt 0);
     (lit "total", VInt 0)].

(** One item of a batch, as the loops meet it: the name its record will
    carry, and its bytes. *)
Definition item : Type := str * bytes.

(** The items of a batch in processing order: the entries of an archive in
    listing order without its directories, in the place of the archive; any
    other upload under its lowercased name.  [None] when an archive cannot
    be opened or one of its entries cannot be read. *)
Fixpoint entry_named_items (infos : list ZipInfo) : option (list item) :=
  match infos with
  | [] => Some []
  | zi :: infos' =>
      if zi_is_dir zi then entry_named_items infos'
      else
        match zi_read zi with
        | inr image_bytes =>
            option_map (cons (zi_filename zi, image_bytes))
              (entry_named_items infos')
        | inl _ => None
        end
  end.

Definition file_named_items `{Collaborators W} (file : FileStorage)
  : option (list item) :=
  if is_zip_name file then
    match zipfile_open (content file) with
    | inr infos => entry_named_items infos
    | inl _ => None
    end
  else Some [(str_lower (filename file), content file)].

Fixpoint batch_named_items `{Collaborators W} (files : list FileStorage)
  : option (list item) :=
  match files with
  | [] => Some []
  | file :: files' =>
      match file_named_items file, batch_named_items files' with
      | Some items, Some items' => Some (items ++ items')
      | _, _ => None
      end
  end.

(** What an item contributes to the response, given the result of the
    extractor on its bytes: the result under the item's name when it is a
    non-empty dict, nothing otherwise. *)
Definition named (name : str) (v : value) : list value :=
  match v with
  | VDict (kv :: d) => [VDict (dict_set (kv :: d) (lit "filename") (VStr name))]
  | _ => []
  end.

(** The extractor run on the items one after the other, each from the
    world the one before left; the contributions are gathered in the order
    of the items. *)
Fixpoint extract_all `{Collaborators W} (items : list item) : M W (list value) :=
  match items with
  | [] => ret []
  | (name, image_bytes) :: items' =>
      v ← process_image image_bytes;
      records ← extract_all items';
      ret (named name v ++ records)
  end.

(** [tags_blocked s]: wherever the opening fence occurs in [s], what stands
    right after it is neither whitespace nor an opening brace (a character
    of another kind, or the end of the text). *)
Fixpoint tags_blocked (s : str) : bool :=
  (if startswith s Re.fence_open then
     match drop (length Re.fence_open) s with
     | [] => true
     | c :: _ => negb (isspace c) && negb (c =? 123)
     end
   else true) &&
  match s with
  | [] => true
  | _ :: s' => tags_blocked s'
  end.

(** * Properties *)

(** ** Induction on values *)

Lemma value_ind (P : value -> Prop)
    (HNone : P VNone)
    (HBool : forall b, P (VBool b))
    (HInt : forall z, P (VInt z))
    (HFloat : forall f, P (VFloat f))
    (HStr : forall s, P (VStr s))
    (HList : forall items, Forall P items -> P (VList items))
    (HDict : forall items, Forall (fun kv => P (snd kv)) items -> P (VDict items)) :
  forall v, P v.
Proof.
  fix IH 1. intros [ | b | z | f | s | items | items ].
  - exact HNone.
  - apply HBool.
  - apply HInt.
  - apply HFloat.
  - apply HStr.
  - apply HList. induction items as [ | x items IHitems ]; constructor.
    + apply IH.
    + exact IHitems.
  - apply HDict. induction items as [ | [k x] items IHitems ]; constructor.
    + apply IH.
    + exact IHitems.
Qed.

(** ** The field normalizer *)

Lemma clean_empty_dict items :
  clean_empty (VDict items) = VDict (clean_items items).
Proof.
  unfold clean_items, passes. cbn [clean_empty]. f_equal.
  induction items as [ | [k v] items IH ]; [ reflexivity | ].
  cbn [List.filter map fst snd]. destruct (in_empties v); cbn [negb map fst snd].
  - exact IH.
  - now rewrite IH.
Qed.

Lemma clean_empty_list items :
  clean_empty (VList items) = VList (clean_elems items).
Proof.
  unfold clean_elems, passes. cbn [clean_empty]. f_equal.
  induction items as [ | v items IH ]; [ reflexivity | ].
  cbn [List.filter map]. destruct (in_empties v); cbn [negb map].
  - exact IH.
  - now rewrite IH.
Qed.

Lemma clean_items_app l1 l2 :
  clean_items (l1 ++ l2) = clean_items l1 ++ clean_items l2.
Proof. unfold clean_items. now rewrite List.filter_app, map_app. Qed.

Lemma clean_elems_app l1 l2 :
  clean_elems (l1 ++ l2) = clean_elems l1 ++ clean_elems l2.
Proof. unfold clean_elems. now rewrite List.filter_app, map_app. Qed.

Lemma all_members_dict p items :
  all_members p (VDict items) =
  forallb (fun kv => p (snd kv) && all_members p (snd kv)) items.
Proof.
  cbn [all_members].
  induction items as [ | [k x] items IH ]; [ reflexivity | ].
  cbn [forallb snd]. now rewrite IH.
Qed.

Lemma all_members_list p items :
  all_members p (VList items) =
  forallb (fun x => p x && all_members p x) items.
Proof.
  cbn [all_members].
  induction items as [ | x items IH ]; [ reflexivity | ].
  cbn [forallb]. now rewrite IH.
Qed.

(** A value that passes the filter is not a scalar empty, and cleaning does
    not turn it into one: scalars are returned as they are, containers stay
    containers. *)
Lemma passes_clean_not_scalar_empty v :
  passes v = true -> scalar_empty (clean_empty v) = false.
Proof.
  unfold passes, in_empties, scalar_empty, empty_consts.
  destruct v as [ | b | z | f | s | items | items ]; cbn [clean_empty].
  - discriminate.
  - destruct b; [ reflexivity | discriminate ].
  - cbn. destruct (Z.eqb z 0); [ discriminate | reflexivity ].
  - cbn. destruct (SFeqb f float_zero); [ discriminate | reflexivity ].
  - destruct s; [ discriminate | reflexivity ].
  - reflexivity.
  - reflexivity.
Qed.

Lemma clean_empty_members_not_scalar_empty v :
  all_members (fun x => negb (scalar_empty x)) (clean_empty v) = true.
Proof.
  induction v as [ | | | | | items IH | items IH ] using value_ind;
    try reflexivity.
  - rewrite clean_empty_list, all_members_list. apply List.forallb_forall.
    intros y Hy. unfold clean_elems in Hy.
    apply List.in_map_iff in Hy as (x & <- & Hx).
    apply List.filter_In in Hx as [Hin Hpass].
    rewrite (passes_clean_not_scalar_empty _ Hpass). cbn [negb andb].
    rewrite List.Forall_forall in IH. now apply IH.
  - rewrite clean_empty_dict, all_members_dict. apply List.forallb_forall.
    intros y Hy. unfold clean_items in Hy.
    apply List.in_map_iff in Hy as ([k x] & <- & Hx).
    apply List.filter_In in Hx as [Hin Hpass]. cbn [fst snd] in *.
    rewrite (passes_clean_not_scalar_empty _ Hpass). cbn [negb andb].
    rewrite List.Forall_forall in IH. now apply (IH (k, x)).
Qed.

(** A value none of whose members, at any depth, is in the tuple of empties
    is left as it is. *)
Lemma clean_empty_fixed u :
  all_members passes u = true -> clean_empty u = u.
Proof.
  induction u as [ | | | | | items IH | items IH ] using value_ind;
    try reflexivity.
  - rewrite clean_empty_list, all_members_list. intros H. f_equal.
    unfold clean_elems.
    induction items as [ | x items IHitems ]; [ reflexivity | ].
    cbn [forallb] in H. apply andb_true_iff in H as [Hx Hrest].
    apply andb_true_iff in Hx as [Hp Hm].
    inversion IH as [ | ? ? IHx IHrest ]; subst.
    cbn [List.filter]. rewrite Hp. cbn [map].
    rewrite (IHx Hm). f_equal. now apply IHitems.
  - rewrite clean_empty_dict, all_members_dict. intros H. f_equal.
    unfold clean_items.
    induction items as [ | [k x] items IHitems ]; [ reflexivity | ].
    cbn [forallb snd] in H. apply andb_true_iff in H as [Hx Hrest].
    apply andb_true_iff in Hx as [Hp Hm].
    inversion IH as [ | ? ? IHx IHrest ]; subst. cbn [snd] in IHx.
    cbn [List.filter snd]. rewrite Hp. cbn [map fst snd].
    rewrite (IHx Hm). f_equal. now apply IHitems.
Qed.

(** What the two comprehensions compute: an item is kept exactly when the
    value it holds in the input passes the test, and the kept value is the
    cleaned input value.  So no kept value is the empty string, [None] or
    zero; nothing prevents it from being a list or a dict that cleaning has
    emptied. *)
Lemma clean_empty_comprehensions :
  (forall items,
     clean_empty (VDict items) =
     VDict (map (fun kv => (fst kv, clean_empty (snd kv)))
              (List.filter (fun kv => negb (in_empties (snd kv))) items))) /\
  (forall items,
     clean_empty (VList items) =
     VList (map clean_empty (List.filter (fun v => negb (in_empties v)) items))) /\
  (forall v,
     all_members (fun x => negb (scalar_empty x)) (clean_empty v) = true).
Proof.
  split; [ | split ].
  - exact clean_empty_dict.
  - exact clean_empty_list.
  - exact clean_empty_members_not_scalar_empty.
Qed.

(** The same on a record whose vendor has only empty fields. *)
Lemma clean_empty_keeps_emptied_vendor :
  clean_empty sample_unfilled_vendor =
    VDict [(lit "vendor", VDict []); (lit "invoice_no", VStr (lit "A1"))] /\
  dict_get [(lit "vendor", VDict []); (lit "invoice_no", VStr (lit "A1"))]
    (lit "vendor") = Some (VDict []) /\
  in_empties (VDict []) = true /\
  all_members passes (clean_empty sample_unfilled_vendor) = false.
Proof. repeat split; vm_compute; reflexivity. Qed.

(** C1 does not hold of the program.  The field normalizer is meant to
    clean empty fields, and its tuple of empties lists the empty list and
    the empty dict; but the test is made on the value as it is in the
    input, not on the cleaned value.  On the very record the prompt gives
    as its template (every field empty), the output keeps [vendor],
    [bill_to] and [issued_to] with the empty dict as value, and [items]
    with a list whose one element is the empty dict. *)
Theorem clean_empty_leaves_emptied_containers :
  parse_json extraction_prompt = prompt_template /\
  clean_empty prompt_template =
    VDict [(lit "vendor", VDict []); (lit "bill_to", VDict []);
           (lit "issued_to", VDict []); (lit "items", VList [VDict []])] /\
  dict_get [(lit "vendor", VDict []); (lit "bill_to", VDict []);
            (lit "issued_to", VDict []); (lit "items", VList [VDict []])]
    (lit "vendor") = Some (VDict []) /\
  in_empties (VDict []) = true /\
  all_members passes (clean_empty prompt_template) = false.
Proof. repeat split; vm_compute; reflexivity. Qed.

(** C2 does not hold of the program, for the same reason as C1: a
    container that the first application has emptied is one of the empties
    for the second, which prunes it.  On the template of the prompt three
    applications give three different values. *)
Theorem clean_empty_twice_differs :
  clean_empty (clean_empty sample_unfilled_vendor) <>
    clean_empty sample_unfilled_vendor /\
  clean_empty prompt_template =
    VDict [(lit "vendor", VDict []); (lit "bill_to", VDict []);
           (lit "issued_to", VDict []); (lit "items", VList [VDict []])] /\
  clean_empty (clean_empty prompt_template) = VDict [(lit "items", VList [])] /\
  clean_empty (clean_empty (clean_empty prompt_template)) = VDict [].
Proof.
  split; [ vm_compute; discriminate | ].
  repeat split; vm_compute; reflexivity.
Qed.

Lemma clean_items_drop k v before after :
  passes v = false ->
  clean_items (before ++ (k, v) :: after) = clean_items (before ++ after).
Proof.
  intros Hp. change ((k, v) :: after) with ([(k, v)] ++ after).
  rewrite !clean_items_app. unfold clean_items at 2.
  cbn [List.filter snd]. rewrite Hp. reflexivity.
Qed.

Lemma clean_elems_drop v l1 l2 :
  passes v = false ->
  clean_elems (l1 ++ v :: l2) = clean_elems (l1 ++ l2).
Proof.
  intros Hp. change (v :: l2) with ([v] ++ l2).
  rewrite !clean_elems_app. unfold clean_elems at 2.
  cbn [List.filter]. rewrite Hp. reflexivity.
Qed.

(** C9.  In a dict and in a list alike, [False], [0.0] and [-0.0] are
    pruned as the integer [0] is, and [True] is kept as it is. *)
Theorem clean_empty_zero_like_values
    (k : str) (before after : list (str * value)) (l1 l2 : list value) :
  Forall (fun v =>
            clean_empty (VDict (before ++ (k, v) :: after)) =
              clean_empty (VDict (before ++ after)) /\
            clean_empty (VList (l1 ++ v :: l2)) =
              clean_empty (VList (l1 ++ l2)))
    [VInt 0; VBool false; VFloat (S754_zero false); VFloat (S754_zero true)] /\
  clean_empty (VDict (before ++ (k, VBool true) :: after)) =
    VDict (clean_items before ++ (k, VBool true) :: clean_items after) /\
  clean_empty (VList (l1 ++ VBool true :: l2)) =
    VList (clean_elems l1 ++ VBool true :: clean_elems l2).
Proof.
  split; [ | split ].
  - repeat constructor;
      rewrite ?clean_empty_dict, ?clean_empty_list; f_equal;
      (apply clean_items_drop || apply clean_elems_drop); reflexivity.
  - rewrite clean_empty_dict, clean_items_app. reflexivity.
  - rewrite clean_empty_list, clean_elems_app. reflexivity.
Qed.

(** ** The decoder has enough fuel *)

Module JsonFacts.
Import Json.

Lemma skip_ws_length s : (length (skip_ws s) <= length s)%nat.
Proof.
  induction s as [ | c s IH ]; cbn [skip_ws length]; [ lia | ].
  destruct (is_ws c); cbn [length]; lia.
Qed.

Lemma skip_ws_cons s c r :
  skip_ws s = c :: r -> (length r < length s)%nat.
Proof.
  intros E. pose proof (skip_ws_length s) as Hle. rewrite E in Hle.
  cbn [length] in Hle. lia.
Qed.

Lemma startswith_length s p :
  startswith s p = true -> (length p <= length s)%nat.
Proof.
  revert s. induction p as [ | c p IH ]; intros s; cbn [startswith length];
    [ lia | ].
  destruct s as [ | d s ]; [ discriminate | ].
  intros Hs. apply andb_true_iff in Hs as [_ Hs]. apply IH in Hs.
  cbn [length]. lia.
Qed.

Lemma scanstring_shorter_upto n :
  forall s t r,
    (length s <= n)%nat -> scanstring s = Some (t, r) ->
    (length r < length s)%nat.
Proof.
  induction n as [ | n IH ]; intros s t r Hn Hscan.
  - destruct s; [ discriminate | cbn [length] in Hn; lia ].
  - destruct s as [ | c s1 ]; [ discriminate | ].
    cbn [scanstring] in Hscan. cbn [length] in *.
    repeat case_match; simplify_eq; cbn [length] in *; try lia;
      match goal with
      | Hin : scanstring ?x = Some (_, ?y) |- (length ?y < _)%nat =>
          apply IH in Hin; cbn [length] in *; lia
      end.
Qed.

Lemma scanstring_shorter s t r :
  scanstring s = Some (t, r) -> (length r < length s)%nat.
Proof. now apply (scanstring_shorter_upto (length s)). Qed.

Lemma span_digits_length s ds r :
  span_digits s = (ds, r) -> (length r <= length s)%nat.
Proof.
  revert ds r. induction s as [ | c s IH ]; cbn [span_digits]; intros ds r.
  - intros [= <- <-]. cbn. lia.
  - destruct (is_digit c).
    + destruct (span_digits s) as [ds' r'] eqn:E. intros [= <- <-].
      specialize (IH _ _ eq_refl). cbn [length]. lia.
    + intros [= <- <-]. lia.
Qed.

Lemma number_sign_length s neg r :
  number_sign s = (neg, r) -> (length r <= length s)%nat.
Proof.
  unfold number_sign. destruct s as [ | c t ]; [ intros [= <- <-]; lia | ].
  destruct (c =? 45); intros [= <- <-]; cbn [length]; lia.
Qed.

Lemma number_integer_shorter s ids r :
  number_integer s = Some (ids, r) -> (length r < length s)%nat.
Proof.
  unfold number_integer. destruct s as [ | c t ]; [ discriminate | ].
  destruct (c =? 48); [ intros [= <- <-]; cbn [length]; lia | ].
  destruct (is_digit c); [ | discriminate ].
  destruct (span_digits t) as [ds r'] eqn:E. intros [= <- <-].
  apply span_digits_length in E. cbn [length]. lia.
Qed.

Lemma number_frac_length s frac r :
  number_frac s = (frac, r) -> (length r <= length s)%nat.
Proof.
  unfold number_frac. destruct s as [ | p [ | d t ] ];
    try (intros [= <- <-]; lia).
  destruct ((p =? 46) && is_digit d); [ | intros [= <- <-]; lia ].
  destruct (span_digits _) as [fs r'] eqn:E. intros [= <- <-].
  apply span_digits_length in E. cbn [tail length] in *. lia.
Qed.

Lemma number_exp_length s exp r :
  number_exp s = (exp, r) -> (length r <= length s)%nat.
Proof.
  unfold number_exp. destruct s as [ | e t ]; [ intros [= <- <-]; lia | ].
  destruct ((e =? 101) || (e =? 69)); [ | intros [= <- <-]; lia ].
  assert (Hsign : forall eneg t',
             match t with
             | sg :: t1 =>
                 if sg =? 45 then (true, t1)
                 else if sg =? 43 then (false, t1) else (false, t)
             | [] => (false, t)
             end = (eneg, t') -> (length t' <= length t)%nat).
  { intros eneg t'. destruct t as [ | sg t1 ]; [ intros [= <- <-]; lia | ].
    destruct (sg =? 45); [ intros [= <- <-]; cbn [length]; lia | ].
    destruct (sg =? 43); intros [= <- <-]; cbn [length]; lia. }
  destruct (match t with [] => _ | _ => _ end) as [eneg t'].
  specialize (Hsign _ _ eq_refl).
  destruct t' as [ | d t'' ]; [ intros [= <- <-]; lia | ].
  destruct (is_digit d); [ | intros [= <- <-]; lia ].
  destruct (span_digits _) as [es r'] eqn:E. intros [= <- <-].
  apply span_digits_length in E. cbn [length] in *. lia.
Qed.

Lemma match_number_shorter s v r :
  match_number s = Some (v, r) -> (length r < length s)%nat.
Proof.
  unfold match_number.
  destruct (number_sign s) as [neg s1] eqn:Hsign.
  destruct (number_integer s1) as [[ids r1] | ] eqn:Hint; [ | discriminate ].
  destruct (number_frac r1) as [frac r2] eqn:Hfrac.
  destruct (number_exp r2) as [exp r3] eqn:Hexp.
  apply number_sign_length in Hsign. apply number_integer_shorter in Hint.
  apply number_frac_length in Hfrac. apply number_exp_length in Hexp.
  destruct frac, exp; intros [= _ <-]; lia.
Qed.

Ltac length_facts :=
  repeat match goal with
         | Hs : skip_ws _ = _ :: _ |- _ => apply skip_ws_cons in Hs
         | Hs : scanstring _ = Some _ |- _ => apply scanstring_shorter in Hs
         | Hs : match_number _ = Some _ |- _ => apply match_number_shorter in Hs
         | Hs : _ && startswith _ _ = true |- _ =>
             apply andb_true_iff in Hs as [_ Hs]
         | Hs : startswith _ _ = true |- _ =>
             apply startswith_length in Hs; cbn [length lit] in Hs
         end.

Ltac skipped_lengths :=
  repeat match goal with
         | |- context [skip_ws ?x] =>
             pose proof (skip_ws_length x);
             generalize dependent (skip_ws x); intros
         | Hs : context [skip_ws ?x] |- _ =>
             pose proof (skip_ws_length x);
             generalize dependent (skip_ws x); intros
         end.

(** Each scanner returns a strictly shorter input. *)
Lemma scanners_shorter fuel :
  (forall s v r, scan_once fuel s = Some (v, r) -> (length r < length s)%nat) /\
  (forall s ps ps' r,
     object_pairs fuel s ps = Some (ps', r) -> (length r < length s)%nat) /\
  (forall s vs vs' r,
     array_items fuel s vs = Some (vs', r) -> (length r < length s)%nat).
Proof.
  induction fuel as [ | fuel (IHscan & IHobj & IHarr) ];
    [ repeat split; discriminate | ].
  split; [ | split ].
  - intros s v r Hrun. cbn [scan_once] in Hrun.
    destruct s as [ | c s1 ]; [ discriminate | ].
    repeat case_match; simplify_eq;
      repeat match goal with
             | Hs : object_pairs fuel _ _ = Some _ |- _ => apply IHobj in Hs
             | Hs : array_items fuel _ _ = Some _ |- _ => apply IHarr in Hs
             end;
      length_facts; rewrite ?length_drop; cbn [length] in *; lia.
  - intros s ps ps' r Hrun. cbn [object_pairs] in Hrun.
    repeat case_match; simplify_eq;
      repeat match goal with
             | Hs : object_pairs fuel _ _ = Some _ |- _ => apply IHobj in Hs
             | Hs : scan_once fuel _ = Some _ |- _ => apply IHscan in Hs
             end;
      length_facts; skipped_lengths; cbn [length] in *; lia.
  - intros s vs vs' r Hrun. cbn [array_items] in Hrun.
    repeat case_match; simplify_eq;
      repeat match goal with
             | Hs : array_items fuel _ _ = Some _ |- _ => apply IHarr in Hs
             | Hs : scan_once fuel _ = Some _ |- _ => apply IHscan in Hs
             end;
      length_facts; skipped_lengths; cbn [length] in *; lia.
Qed.

(** Past twice the length of the input, more fuel changes nothing. *)
Lemma scanners_fuel fuel1 :
  forall fuel2,
    (forall s,
       (2 * length s < fuel1)%nat -> (2 * length s < fuel2)%nat ->
       scan_once fuel1 s = scan_once fuel2 s) /\
    (forall s ps,
       (2 * length s + 1 < fuel1)%nat -> (2 * length s + 1 < fuel2)%nat ->
       object_pairs fuel1 s ps = object_pairs fuel2 s ps) /\
    (forall s vs,
       (2 * length s + 1 < fuel1)%nat -> (2 * length s + 1 < fuel2)%nat ->
       array_items fuel1 s vs = array_items fuel2 s vs).
Proof.
  induction fuel1 as [ | fuel1 IH ]; intros fuel2;
    [ repeat split; intros; lia | ].
  destruct fuel2 as [ | fuel2 ]; [ repeat split; intros; lia | ].
  destruct (IH fuel2) as (IHscan & IHobj & IHarr).
  split; [ | split ].
  - intros s H1 H2. cbn [scan_once].
    destruct s as [ | c s1 ]; [ reflexivity | ]. cbn [length] in *.
    destruct (c =? 34); [ reflexivity | ].
    destruct (c =? 123).
    { destruct (skip_ws s1) as [ | c1 r1 ] eqn:E; [ reflexivity | ].
      apply skip_ws_cons in E.
      destruct (c1 =? 125); [ reflexivity | ].
      destruct (c1 =? 34); [ | reflexivity ].
      rewrite (IHobj r1 []) by lia. reflexivity. }
    destruct (c =? 91); [ | reflexivity ].
    destruct (skip_ws s1) as [ | c1 r1 ] eqn:E; [ reflexivity | ].
    apply skip_ws_cons in E.
    destruct (c1 =? 93); [ reflexivity | ].
    rewrite (IHarr (c1 :: r1) []) by (cbn [length]; lia). reflexivity.
  - intros s ps H1 H2. cbn [object_pairs].
    destruct (scanstring s) as [[key r0] | ] eqn:Hkey; [ | reflexivity ].
    apply scanstring_shorter in Hkey.
    destruct (skip_ws r0) as [ | c r1 ] eqn:E; [ reflexivity | ].
    apply skip_ws_cons in E.
    destruct (c =? 58); [ | reflexivity ].
    pose proof (skip_ws_length r1) as Hr1.
    rewrite (IHscan (skip_ws r1)) by lia.
    destruct (scan_once fuel2 (skip_ws r1)) as [[v r2] | ] eqn:Hv;
      [ | reflexivity ].
    apply (scanners_shorter fuel2) in Hv.
    destruct (skip_ws r2) as [ | c2 r3 ] eqn:E2; [ reflexivity | ].
    apply skip_ws_cons in E2.
    destruct (c2 =? 125); [ reflexivity | ].
    destruct (c2 =? 44); [ | reflexivity ].
    destruct (skip_ws r3) as [ | c3 r4 ] eqn:E3; [ reflexivity | ].
    apply skip_ws_cons in E3.
    destruct (c3 =? 34); [ | reflexivity ].
    apply IHobj; lia.
  - intros s vs H1 H2. cbn [array_items].
    rewrite (IHscan s) by lia.
    destruct (scan_once fuel2 s) as [[v r] | ] eqn:Hv; [ | reflexivity ].
    apply (scanners_shorter fuel2) in Hv.
    destruct (skip_ws r) as [ | c r1 ] eqn:E; [ reflexivity | ].
    apply skip_ws_cons in E.
    destruct (c =? 93); [ reflexivity | ].
    destruct (c =? 44); [ | reflexivity ].
    pose proof (skip_ws_length r1) as Hr1.
    apply IHarr; lia.
Qed.

(** The fuel [loads] gives is enough: a larger amount returns the same. *)
Lemma scan_once_fuel s fuel :
  (enough_fuel s <= fuel)%nat ->
  scan_once fuel (skip_ws s) = scan_once (enough_fuel s) (skip_ws s).
Proof.
  intros Hfuel. pose proof (skip_ws_length s) as Hs. unfold enough_fuel in *.
  now apply scanners_fuel; lia.
Qed.

End JsonFacts.

(** ** The reply parser *)

Lemma skip_space_app_spaces ws s :
  all_space ws = true -> Re.skip_space (ws ++ s) = Re.skip_space s.
Proof.
  induction ws as [ | c ws IH ]; [ reflexivity | ].
  cbn [all_space forallb app Re.skip_space]. intros H.
  apply andb_true_iff in H as [-> H]. now apply IH.
Qed.

Lemma skip_space_head c s :
  isspace c = false -> Re.skip_space (c :: s) = c :: s.
Proof. intros H. cbn [Re.skip_space]. now rewrite H. Qed.

Lemma startswith_app p s : startswith (p ++ s) p = true.
Proof.
  induction p as [ | c p IH ]; [ now destruct s | ].
  cbn [app startswith]. now rewrite N.eqb_refl, IH.
Qed.

Lemma contains_app_intro pre p s : contains (pre ++ p ++ s) p = true.
Proof.
  induction pre as [ | c pre IH ].
  - cbn [app]. destruct (p ++ s) eqn:E; cbn [contains];
      rewrite <- ?E, startswith_app; reflexivity.
  - cbn [app contains]. rewrite IH. apply orb_true_r.
Qed.

(** The lazy body stops at the first closing brace that closes. *)
Lemma lazy_body_exact mid rest :
  early_close mid (125 :: rest) = false ->
  Re.closes rest = true ->
  Re.lazy_body (mid ++ 125 :: rest) = Some mid.
Proof.
  intros Hearly Hclose. induction mid as [ | c mid IH ].
  - cbn [app Re.lazy_body]. now rewrite N.eqb_refl, Hclose.
  - cbn [early_close] in Hearly. apply orb_false_iff in Hearly as [Hc Hearly].
    cbn [app Re.lazy_body]. rewrite Hc, (IH Hearly). reflexivity.
Qed.

Lemma fence_open_chars : Re.fence_open = [96; 96; 96; 106; 115; 111; 110].
Proof. reflexivity. Qed.

Lemma fence_close_chars : Re.fence_close = [96; 96; 96].
Proof. reflexivity. Qed.

Lemma match_fenced_no_backquote c s :
  (c =? 96) = false -> Re.match_fenced (c :: s) = None.
Proof.
  intros H. unfold Re.match_fenced. rewrite fence_open_chars.
  cbn [startswith]. rewrite N.eqb_sym, H. reflexivity.
Qed.

Lemma search_fenced_skip pre s :
  no_char 96 pre = true -> Re.search_fenced (pre ++ s) = Re.search_fenced s.
Proof.
  induction pre as [ | c pre IH ]; [ reflexivity | ].
  cbn [no_char forallb]. intros H. apply andb_true_iff in H as [Hc H].
  apply negb_true_iff in Hc.
  cbn [app Re.search_fenced]. rewrite (match_fenced_no_backquote _ _ Hc).
  now apply IH.
Qed.

Lemma search_fenced_hit s g :
  Re.match_fenced s = Some g -> Re.search_fenced s = Some g.
Proof. intros H. destruct s; cbn [Re.search_fenced]; now rewrite H. Qed.

Lemma closes_at_fence ws post :
  all_space ws = true -> Re.closes (ws ++ Re.fence_close ++ post) = true.
Proof.
  intros H. unfold Re.closes. rewrite (skip_space_app_spaces _ _ H).
  rewrite fence_close_chars at 1. cbn [app].
  rewrite skip_space_head by reflexivity.
  apply (startswith_app [96; 96; 96] post).
Qed.

Lemma match_fenced_at_fence ws1 mid ws2 post :
  all_space ws1 = true ->
  all_space ws2 = true ->
  early_close mid (125 :: ws2 ++ Re.fence_close ++ post) = false ->
  Re.match_fenced
    (Re.fence_open ++ ws1 ++ braced mid ++ ws2 ++ Re.fence_close ++ post)
  = Some (braced mid).
Proof.
  intros H1 H2 Hearly. unfold Re.match_fenced.
  rewrite startswith_app, drop_app_length.
  rewrite (skip_space_app_spaces _ _ H1).
  unfold braced. cbn [app]. rewrite skip_space_head by reflexivity.
  cbn [N.eqb Pos.eqb]. rewrite <- app_assoc. cbn [app].
  rewrite lazy_body_exact; [ reflexivity | assumption | ].
  now apply closes_at_fence.
Qed.

Lemma greedy_body_none post :
  no_char 125 post = true -> Re.greedy_body post = None.
Proof.
  induction post as [ | c post IH ]; [ reflexivity | ].
  cbn [no_char forallb]. intros H. apply andb_true_iff in H as [Hc H].
  apply negb_true_iff in Hc. cbn [Re.greedy_body].
  rewrite (IH H), Hc. reflexivity.
Qed.

(** The greedy body runs to the last closing brace. *)
Lemma greedy_body_exact mid post :
  no_char 125 post = true ->
  Re.greedy_body (mid ++ 125 :: post) = Some mid.
Proof.
  intros H. induction mid as [ | c mid IH ].
  - cbn [app Re.greedy_body]. now rewrite (greedy_body_none _ H).
  - cbn [app Re.greedy_body]. now rewrite IH.
Qed.

Lemma search_braces_skip pre s :
  no_char 123 pre = true -> Re.search_braces (pre ++ s) = Re.search_braces s.
Proof.
  induction pre as [ | c pre IH ]; [ reflexivity | ].
  cbn [no_char forallb]. intros H. apply andb_true_iff in H as [Hc H].
  apply negb_true_iff in Hc. cbn [app Re.search_braces]. rewrite Hc.
  now apply IH.
Qed.

Lemma search_braces_at_brace mid post :
  no_char 125 post = true ->
  Re.search_braces (braced mid ++ post) = Some (braced mid).
Proof.
  intros H. unfold braced. cbn [app Re.search_braces N.eqb Pos.eqb].
  rewrite <- app_assoc. cbn [app]. now rewrite (greedy_body_exact _ _ H).
Qed.

(** What either search returns starts with an opening brace. *)
Lemma match_fenced_brace s g :
  Re.match_fenced s = Some g -> exists r, g = 123 :: r.
Proof.
  unfold Re.match_fenced. intros H.
  destruct (startswith s Re.fence_open); [ | discriminate ].
  destruct (Re.skip_space _) as [ | c s' ]; [ discriminate | ].
  destruct (c =? 123); [ | discriminate ].
  destruct (Re.lazy_body s'); [ | discriminate ].
  injection H as <-. eauto.
Qed.

Lemma search_fenced_brace s g :
  Re.search_fenced s = Some g -> exists r, g = 123 :: r.
Proof.
  induction s as [ | c s IH ]; cbn [Re.search_fenced];
    destruct (Re.match_fenced _) eqn:E; intros H.
  - injection H as <-. eauto using match_fenced_brace.
  - discriminate.
  - injection H as <-. eauto using match_fenced_brace.
  - auto.
Qed.

Lemma search_braces_brace s g :
  Re.search_braces s = Some g -> exists r, g = 123 :: r.
Proof.
  induction s as [ | c s IH ]; cbn [Re.search_braces]; [ discriminate | ].
  destruct (c =? 123); [ | exact IH ].
  destruct (Re.greedy_body s); [ | exact IH ].
  intros H. injection H as <-. eauto.
Qed.

(** Decoding a text that starts with an opening brace gives a dict, if it
    gives anything. *)
Lemma loads_brace_dict r v :
  Json.loads (123 :: r) = Some v -> exists d, v = VDict d.
Proof.
  unfold Json.loads, Json.enough_fuel. cbn [startswith N.eqb Pos.eqb andb].
  cbn [Json.skip_ws Json.is_ws N.eqb Pos.eqb orb].
  cbn [Json.scan_once N.eqb Pos.eqb].
  intros H. repeat case_match; simplify_eq; eauto.
Qed.

Lemma parse_json_none_or_dict text :
  parse_json text = VNone \/ exists d, parse_json text = VDict d.
Proof.
  unfold parse_json.
  destruct (contains text Re.fence_open).
  - destruct (Re.search_fenced text) as [g | ] eqn:E; [ | now left ].
    apply search_fenced_brace in E as [r ->].
    destruct (Json.loads (123 :: r)) as [v | ] eqn:L; [ | now left ].
    apply loads_brace_dict in L as [d ->]. eauto.
  - destruct (Re.search_braces text) as [g | ] eqn:E; [ | now left ].
    apply search_braces_brace in E as [r ->].
    destruct (Json.loads (123 :: r)) as [v | ] eqn:L; [ | now left ].
    apply loads_brace_dict in L as [d ->]. eauto.
Qed.

(** C4, as the program has it.  Let the text [{mid}] decode to [J].
    Fenced: placed in a fence tagged json, after text without a backquote
    and with optional whitespace inside the fence, it is recovered as [J]
    provided no closing brace inside it, other than its last character, is
    followed by optional whitespace and three backquotes.  Bare: in a reply
    that does not contain the opening fence, with no opening brace before it
    and no closing brace after it, it is recovered as [J]. *)
Theorem parse_json_recovers_enclosed_object
    (J : value) (mid pre ws1 ws2 post : str) :
  Json.loads (braced mid) = Some J ->
  (no_char 96 pre = true ->
   all_space ws1 = true ->
   all_space ws2 = true ->
   early_close mid (125 :: ws2 ++ Re.fence_close ++ post) = false ->
   parse_json (fenced_reply pre ws1 (braced mid) ws2 post) = J) /\
  (contains (plain_reply pre (braced mid) post) Re.fence_open = false ->
   no_char 123 pre = true ->
   no_char 125 post = true ->
   parse_json (plain_reply pre (braced mid) post) = J).
Proof.
  intros HJ. split.
  - intros Hpre H1 H2 Hearly. unfold parse_json, fenced_reply.
    rewrite contains_app_intro, (search_fenced_skip _ _ Hpre).
    rewrite (search_fenced_hit _ (braced mid)).
    + now rewrite HJ.
    + now apply match_fenced_at_fence.
  - intros Hplain Hpre Hpost. unfold parse_json. rewrite Hplain.
    unfold plain_reply. rewrite (search_braces_skip _ _ Hpre).
    rewrite (search_braces_at_brace _ _ Hpost). now rewrite HJ.
Qed.

Lemma parse_json_recovers_enclosed_object_witness :
  parse_json
    (fenced_reply (lit "Here is the data: ") [10]
       (braced (lit "'invoice_no': 'A1', 'vendor': {'name': 'Acme'}, 'total': 12.5"))
       [10] (lit " Done."))
  = VDict [(lit "invoice_no", VStr (lit "A1"));
           (lit "vendor", VDict [(lit "name", VStr (lit "Acme"))]);
           (lit "total", VFloat (S754_finite false 7036874417766400 (-49)))] /\
  parse_json
    (plain_reply (lit "Here is the data: ")
       (braced (lit "'invoice_no': 'A1', 'vendor': {'name': 'Acme'}, 'total': 12.5"))
       (lit " Done."))
  = VDict [(lit "invoice_no", VStr (lit "A1"));
           (lit "vendor", VDict [(lit "name", VStr (lit "Acme"))]);
           (lit "total", VFloat (S754_finite false 7036874417766400 (-49)))].
Proof.
  assert (HJ : Json.loads
                 (braced (lit "'invoice_no': 'A1', 'vendor': {'name': 'Acme'}, 'total': 12.5"))
               = Some (VDict [(lit "invoice_no", VStr (lit "A1"));
                              (lit "vendor", VDict [(lit "name", VStr (lit "Acme"))]);
                              (lit "total", VFloat (S754_finite false 7036874417766400 (-49)))]))
    by (vm_compute; reflexivity).
  destruct (parse_json_recovers_enclosed_object _ _ (lit "Here is the data: ")
              [10] [10] (lit " Done.") HJ) as [Hfenced Hplain].
  split.
  - apply Hfenced; vm_compute; reflexivity.
  - apply Hplain; vm_compute; reflexivity.
Defined.

(** C4 as stated fails for a fenced object one of whose strings holds a
    closing brace followed by three backquotes: the lazy match ends there
    and the truncated text does not decode. *)
Lemma parse_json_fence_inside_string :
  Json.loads sample_fence_in_string =
    Some (VDict [(lit "note", VStr (lit "see }```"))]) /\
  Re.search_fenced (fenced_reply [] [10] sample_fence_in_string [10] []) =
    Some (lit "{'note': 'see }") /\
  parse_json (fenced_reply [] [10] sample_fence_in_string [10] []) = VNone.
Proof. repeat split; vm_compute; reflexivity. Qed.

(** ** The item extractor *)

Ltac unfold_monad :=
  unfold mbind, M_bind, bind, mret, M_ret, ret, lift, ask, ask_exn, emit, raise in *.

Section Extractor.
Context `{Collaborators W}.

Lemma process_image_not_image image_data (st : state W) :
  sniffed_as_image image_data = false ->
  process_image image_data st = (inr VNone, st).
Proof.
  unfold sniffed_as_image, process_image. intros ->. reflexivity.
Qed.

Lemma process_image_model_raises image_data (st : state W) e w' :
  sniffed_as_image image_data = true ->
  generate_content (prompt_for image_data) (world st) = (inl e, w') ->
  process_image image_data st = (inl e, State w' (log st)).
Proof.
  unfold sniffed_as_image, process_image, prompt_for. intros -> Hgen.
  cbn [negb]. unfold_monad. now rewrite Hgen.
Qed.

Lemma process_image_model_replies image_data (st : state W) text w' :
  sniffed_as_image image_data = true ->
  generate_content (prompt_for image_data) (world st) = (inr text, w') ->
  process_image image_data st =
    match parse_json text with
    | VDict (kv :: d) =>
        (inr (clean_empty
                (VDict (dict_set (kv :: d) (lit "timestamp")
                          (VStr (fst (utcnow_isoformat w')))))),
         State (snd (utcnow_isoformat w')) (log st))
    | v => (inr v, State w' (log st))
    end.
Proof.
  unfold sniffed_as_image, process_image, prompt_for. intros -> Hgen.
  cbn [negb]. unfold_monad. rewrite Hgen.
  destruct (parse_json_none_or_dict text) as [-> | [d ->]]; [ reflexivity | ].
  destruct d as [ | kv d ]; [ reflexivity | ].
  cbn [truthy]. unfold setitem. unfold_monad.
  cbn [world log]. destruct (utcnow_isoformat w') as [now w'']. reflexivity.
Qed.

(** The result of a call that returns is [None] or a dict. *)
Lemma process_image_none_or_dict image_data (st st' : state W) v :
  process_image image_data st = (inr v, st') ->
  v = VNone \/ exists d, v = VDict d.
Proof.
  destruct (sniffed_as_image image_data) eqn:Hmime.
  - destruct (generate_content (prompt_for image_data) (world st))
      as [[e | text] w'] eqn:Hgen.
    + rewrite (process_image_model_raises _ _ _ _ Hmime Hgen). discriminate.
    + rewrite (process_image_model_replies _ _ _ _ Hmime Hgen).
      destruct (parse_json_none_or_dict text) as [-> | [d ->]].
      * intros [= <- _]. now left.
      * destruct d as [ | kv d ]; intros [= <- _]; right.
        -- eauto.
        -- eexists. apply clean_empty_dict.
  - rewrite (process_image_not_image _ _ Hmime). intros [= <- _]. now left.
Qed.

End Extractor.




(** ** The upload handler *)

Lemma dict_get_set d k v : dict_get (dict_set d k v) k = Some v.
Proof.
  induction d as [ | [k' v'] d IH ]; cbn [dict_set dict_get].
  - unfold str_eqb. now rewrite bool_decide_eq_true_2.
  - destruct (str_eqb k' k) eqn:E; cbn [dict_get]; now rewrite E.
Qed.

Section Orchestrator.
Context `{Collaborators W}.

Lemma process_image_log image_data (st st' : state W) r :
  process_image image_data st = (r, st') -> log st' = log st.
Proof.
  destruct (sniffed_as_image image_data) eqn:Hmime.
  - destruct (generate_content (prompt_for image_data) (world st))
      as [[e | text] w'] eqn:Hgen.
    + rewrite (process_image_model_raises _ _ _ _ Hmime Hgen).
      now intros [= _ <-].
    + rewrite (process_image_model_replies _ _ _ _ Hmime Hgen).
      repeat case_match; now intros [= _ <-].
  - rewrite (process_image_not_image _ _ Hmime). now intros [= _ <-].
Qed.

(** A result of [process_image] is appended under its name, or skipped. *)
Lemma append_result_spec v name rs (st : state W) :
  v = VNone \/ (exists d, v = VDict d) ->
  exists new names,
    append_result v name rs st = (inr (rs ++ new), st) /\
    map record_name new = map Some names /\
    names `sublist_of` [name].
Proof.
  intros [-> | [[ | kv d] ->]]; unfold append_result; cbn [truthy].
  - exists [], []. rewrite app_nil_r. repeat split. apply sublist_nil_l.
  - exists [], []. rewrite app_nil_r. repeat split. apply sublist_nil_l.
  - eexists [_], [name]. unfold setitem. unfold_monad.
    split; [ reflexivity | ]. split; [ | reflexivity ].
    cbn [map record_name]. now rewrite dict_get_set.
Qed.

Lemma for_zip_infos_step zi infos rs (st : state W) :
  for_zip_infos (zi :: infos) rs st =
    if zi_is_dir zi then for_zip_infos infos rs st
    else
      match zi_read zi with
      | inl e => (inl e, st)
      | inr image_bytes =>
          match process_image image_bytes st with
          | (inl e, st1) => (inl e, st1)
          | (inr v, st1) =>
              match append_result v (zi_filename zi) rs st1 with
              | (inl e, st2) => (inl e, st2)
              | (inr rs1, st2) => for_zip_infos infos rs1 st2
              end
          end
      end.
Proof.
  cbn [for_zip_infos]. destruct (zi_is_dir zi); [ reflexivity | ].
  unfold_monad. destruct (zi_read zi); [ reflexivity | ].
  destruct (process_image _ st) as [[e | v] st1]; reflexivity.
Qed.

Lemma for_files_step file files rs (st : state W) :
  for_files (file :: files) rs st =
    if is_zip_name file then
      match zipfile_open (content file) with
      | inl e => (inl e, st)
      | inr z =>
          match for_zip_infos z rs st with
          | (inl e, st1) => (inl e, st1)
          | (inr rs1, st1) => for_files files rs1 st1
          end
      end
    else
      match process_image (content file) st with
      | (inl e, st1) => (inl e, st1)
      | (inr v, st1) =>
          match append_result v (str_lower (filename file)) rs st1 with
          | (inl e, st2) => (inl e, st2)
          | (inr rs1, st2) => for_files files rs1 st2
          end
      end.
Proof.
  cbn [for_files]. unfold is_zip_name.
  destruct (endswith _ _); unfold_monad.
  - destruct (zipfile_open _); [ reflexivity | ].
    destruct (for_zip_infos _ rs st) as [[e | rs1] st1]; reflexivity.
  - destruct (process_image _ st) as [[e | v] st1]; [ reflexivity | ].
    destruct (append_result _ _ rs st1) as [[e | rs1] st2]; reflexivity.
Qed.

End Orchestrator.

Section Batch.
Context `{Collaborators W}.

Lemma entry_names_cons zi infos :
  entry_names (zi :: infos) =
    if zi_is_dir zi then entry_names infos
    else zi_filename zi :: entry_names infos.
Proof. unfold entry_names. cbn [List.filter]. now destruct (zi_is_dir zi). Qed.

(** The loop over the entries of an archive keeps the log and appends, in
    listing order, records named after entries that are not directories. *)
Lemma for_zip_infos_spec infos :
  forall rs (st st' : state W) r,
    for_zip_infos infos rs st = (r, st') ->
    log st' = log st /\
    forall rs', r = inr rs' ->
      exists new names,
        rs' = rs ++ new /\
        map record_name new = map Some names /\
        names `sublist_of` entry_names infos.
Proof.
  induction infos as [ | zi infos IH ]; intros rs st st' r Hrun.
  - cbn in Hrun. injection Hrun as <- <-. split; [ reflexivity | ].
    intros rs' [= <-]. exists [], []. now rewrite app_nil_r.
  - rewrite for_zip_infos_step in Hrun. rewrite entry_names_cons.
    destruct (zi_is_dir zi); [ now apply IH | ].
    destruct (zi_read zi) as [e | image_bytes].
    { injection Hrun as <- <-. split; [ reflexivity | discriminate ]. }
    destruct (process_image image_bytes st) as [[e | v] st1] eqn:Hp.
    { injection Hrun as <- <-. split; [ | discriminate ].
      eapply process_image_log, Hp. }
    destruct (append_result_spec v (zi_filename zi) rs st1)
      as (new0 & names0 & Happ & Hmap0 & Hsub0).
    { eapply process_image_none_or_dict, Hp. }
    rewrite Happ in Hrun. apply IH in Hrun as [Hlog Hrs]. split.
    { rewrite Hlog. eapply process_image_log, Hp. }
    intros rs' ->. destruct (Hrs _ eq_refl) as (new1 & names1 & -> & Hmap1 & Hsub1).
    exists (new0 ++ new1), (names0 ++ names1).
    split; [ now rewrite app_assoc | ].
    split; [ rewrite !map_app; congruence | ].
    change (zi_filename zi :: entry_names infos)
      with ([zi_filename zi] ++ entry_names infos).
    now apply sublist_app.
Qed.

(** The same for the loop over the uploads, with the names of the batch. *)
Lemma for_files_spec files :
  forall rs (st st' : state W) r,
    for_files files rs st = (r, st') ->
    log st' = log st /\
    forall rs', r = inr rs' ->
      exists new names,
        rs' = rs ++ new /\
        map record_name new = map Some names /\
        names `sublist_of` item_names files.
Proof.
  induction files as [ | file files IH ]; intros rs st st' r Hrun.
  - cbn in Hrun. injection Hrun as <- <-. split; [ reflexivity | ].
    intros rs' [= <-]. exists [], []. now rewrite app_nil_r.
  - rewrite for_files_step in Hrun. cbn [item_names]. unfold file_item_names.
    destruct (is_zip_name file).
    + destruct (zipfile_open (content file)) as [e | z].
      { injection Hrun as <- <-. split; [ reflexivity | discriminate ]. }
      destruct (for_zip_infos z rs st) as [[e | rs1] st1] eqn:Hz.
      { injection Hrun as <- <-. split; [ | discriminate ].
        now apply for_zip_infos_spec in Hz as [Hlog _]. }
      apply for_zip_infos_spec in Hz as [Hlog0 Hz].
      destruct (Hz _ eq_refl) as (new0 & names0 & -> & Hmap0 & Hsub0).
      apply IH in Hrun as [Hlog Hrs]. split; [ congruence | ].
      intros rs' ->. destruct (Hrs _ eq_refl) as (new1 & names1 & -> & Hmap1 & Hsub1).
      exists (new0 ++ new1), (names0 ++ names1).
      split; [ now rewrite app_assoc | ].
      split; [ rewrite !map_app; congruence | ].
      now apply sublist_app.
    + destruct (process_image (content file) st) as [[e | v] st1] eqn:Hp.
      { injection Hrun as <- <-. split; [ | discriminate ].
        eapply process_image_log, Hp. }
      destruct (append_result_spec v (str_lower (filename file)) rs st1)
        as (new0 & names0 & Happ & Hmap0 & Hsub0).
      { eapply process_image_none_or_dict, Hp. }
      rewrite Happ in Hrun. apply IH in Hrun as [Hlog Hrs]. split.
      { rewrite Hlog. eapply process_image_log, Hp. }
      intros rs' ->. destruct (Hrs _ eq_refl) as (new1 & names1 & -> & Hmap1 & Hsub1).
      exists (new0 ++ new1), (names0 ++ names1).
      split; [ now rewrite app_assoc | ].
      split; [ rewrite !map_app; congruence | ].
      now apply sublist_app.
Qed.

(** The three ways a request with files ends, and the one without. *)
Lemma upload_image_no_files (st : state W) :
  upload_image [] st =
    (Response 400 (error_body no_files_uploaded),
     State (world st) (log st ++ [SetProgress 0])).
Proof. reflexivity. Qed.

Lemma upload_image_files file files (st : state W) :
  upload_image (file :: files) st =
    match for_files (file :: files) [] (loop_start st) with
    | (inl e, st1) =>
        (Response 500 (error_body (processing_failed ++ e)), st1)
    | (inr [], st1) =>
        (Response 400 (error_body no_valid_images),
         State (world st1) (log st1 ++ [ThreadJoin]))
    | (inr (r :: rs), st1) =>
        (Response 200 (VDict [(lit "invoices", VList (r :: rs))]),
         State (world st1) (log st1 ++ [ThreadJoin]))
    end.
Proof.
  unfold upload_image, upload_try, loop_start. unfold_monad. cbn [world log].
  rewrite <- app_assoc. cbn [app].
  destruct (for_files (file :: files) [] _) as [[e | [ | r rs]] st1]; reflexivity.
Qed.

End Batch.

Lemma sublist_same_length {A} (l1 l2 : list A) :
  l1 `sublist_of` l2 -> length l1 = length l2 -> l1 = l2.
Proof.
  induction 1 as [ | x l1 l2 Hsub IH | x l1 l2 Hsub IH ]; cbn [length]; intros Hlen.
  - reflexivity.
  - f_equal. apply IH. lia.
  - apply sublist_length in Hsub. lia.
Qed.

Lemma item_names_no_archive `{Collaborators W} (files : list FileStorage) :
  forallb (fun file => negb (is_zip_name file)) files = true ->
  item_names files = map (fun file => str_lower (filename file)) files.
Proof.
  induction files as [ | file files IH ]; [ reflexivity | ].
  cbn [forallb]. intros Hall. apply andb_true_iff in Hall as [Hfile Hall].
  apply negb_true_iff in Hfile.
  cbn [item_names map]. unfold file_item_names. rewrite Hfile.
  cbn [app]. f_equal. now apply IH.
Qed.

Section Flattening.
Context `{Collaborators W}.

Lemma append_result_named v name rs (st : state W) :
  v = VNone \/ (exists d, v = VDict d) ->
  append_result v name rs st = (inr (rs ++ named name v), st).
Proof.
  intros [-> | [[ | kv d] ->]]; unfold append_result; cbn [truthy named].
  - unfold_monad. now rewrite app_nil_r.
  - unfold_monad. now rewrite app_nil_r.
  - reflexivity.
Qed.

Lemma extract_all_cons name image_bytes items (st : state W) :
  extract_all ((name, image_bytes) :: items) st =
    match process_image image_bytes st with
    | (inl e, st1) => (inl e, st1)
    | (inr v, st1) =>
        match extract_all items st1 with
        | (inl e, st2) => (inl e, st2)
        | (inr records, st2) => (inr (named name v ++ records), st2)
        end
    end.
Proof.
  cbn [extract_all]. unfold_monad.
  destruct (process_image image_bytes st) as [[e | v] st1]; [ reflexivity | ].
  destruct (extract_all items st1) as [[e | records] st2]; reflexivity.
Qed.

Lemma extract_all_app items1 items2 (st : state W) :
  extract_all (items1 ++ items2) st =
    match extract_all items1 st with
    | (inl e, st1) => (inl e, st1)
    | (inr records1, st1) =>
        match extract_all items2 st1 with
        | (inl e, st2) => (inl e, st2)
        | (inr records2, st2) => (inr (records1 ++ records2), st2)
        end
    end.
Proof.
  revert st. induction items1 as [ | [name image_bytes] items1 IH ]; intros st.
  - cbn [app]. change (extract_all [] st) with (@inr exn (list value) [], st).
    cbv beta iota.
    destruct (extract_all items2 st) as [[e | records2] st2]; reflexivity.
  - cbn [app]. rewrite !extract_all_cons.
    destruct (process_image image_bytes st) as [[e | v] st1]; [ reflexivity | ].
    rewrite IH.
    destruct (extract_all items1 st1) as [[e | records1] st2]; [ reflexivity | ].
    destruct (extract_all items2 st2) as [[e | records2] st3]; [ reflexivity | ].
    now rewrite app_assoc.
Qed.

(** The loop over the entries of an archive is the extractor run on its
    items. *)
Lemma for_zip_infos_flat infos :
  forall items rs (st : state W),
    entry_named_items infos = Some items ->
    for_zip_infos infos rs st =
      match extract_all items st with
      | (inl e, st') => (inl e, st')
      | (inr new, st') => (inr (rs ++ new), st')
      end.
Proof.
  induction infos as [ | zi infos IH ]; intros items rs st Hitems.
  - injection Hitems as <-. cbn. unfold_monad. now rewrite app_nil_r.
  - rewrite for_zip_infos_step. cbn [entry_named_items] in Hitems.
    destruct (zi_is_dir zi); [ now apply IH | ].
    destruct (zi_read zi) as [e | image_bytes]; [ discriminate | ].
    destruct (entry_named_items infos) as [items' | ]; [ | discriminate ].
    injection Hitems as <-. rewrite extract_all_cons.
    destruct (process_image image_bytes st) as [[e | v] st1] eqn:Hp;
      [ reflexivity | ].
    rewrite append_result_named by (eapply process_image_none_or_dict, Hp).
    rewrite (IH items' _ st1 eq_refl).
    destruct (extract_all items' st1) as [[e | new] st2]; [ reflexivity | ].
    now rewrite app_assoc.
Qed.

(** The loop over the uploads is the extractor run on the items of the
    batch. *)
Lemma for_files_flat files :
  forall items rs (st : state W),
    batch_named_items files = Some items ->
    for_files files rs st =
      match extract_all items st with
      | (inl e, st') => (inl e, st')
      | (inr new, st') => (inr (rs ++ new), st')
      end.
Proof.
  induction files as [ | file files IH ]; intros items rs st Hitems.
  - injection Hitems as <-. cbn. unfold_monad. now rewrite app_nil_r.
  - rewrite for_files_step. cbn [batch_named_items] in Hitems.
    unfold file_named_items in Hitems.
    destruct (batch_named_items files) as [items' | ] eqn:Hrest;
      [ | now destruct (is_zip_name file), (zipfile_open (content file)) as [ | z ];
            try destruct (entry_named_items z) ].
    destruct (is_zip_name file).
    + destruct (zipfile_open (content file)) as [e | z]; [ discriminate | ].
      destruct (entry_named_items z) as [items0 | ] eqn:Hz; [ | discriminate ].
      injection Hitems as <-.
      rewrite (for_zip_infos_flat _ _ rs st Hz), extract_all_app.
      destruct (extract_all items0 st) as [[e | new0] st1]; [ reflexivity | ].
      rewrite (IH items' _ st1 eq_refl).
      destruct (extract_all items' st1) as [[e | new1] st2]; [ reflexivity | ].
      now rewrite app_assoc.
    + injection Hitems as <-. cbn [app]. rewrite extract_all_cons.
      destruct (process_image (content file) st) as [[e | v] st1] eqn:Hp;
        [ reflexivity | ].
      rewrite append_result_named by (eapply process_image_none_or_dict, Hp).
      rewrite (IH items' _ st1 eq_refl).
      destruct (extract_all items' st1) as [[e | new] st2]; [ reflexivity | ].
      now rewrite app_assoc.
Qed.

(** A loop that ends without an exception has opened every archive and
    read every entry. *)
Lemma for_zip_infos_items infos :
  forall rs rs' (st st' : state W),
    for_zip_infos infos rs st = (inr rs', st') ->
    exists items, entry_named_items infos = Some items.
Proof.
  induction infos as [ | zi infos IH ]; intros rs rs' st st' Hrun;
    [ now exists [] | ].
  rewrite for_zip_infos_step in Hrun. cbn [entry_named_items].
  destruct (zi_is_dir zi); [ eapply IH, Hrun | ].
  destruct (zi_read zi) as [e | image_bytes]; [ discriminate | ].
  destruct (process_image image_bytes st) as [[e | v] st1]; [ discriminate | ].
  destruct (append_result _ _ rs st1) as [[e | rs1] st2]; [ discriminate | ].
  apply IH in Hrun as [items ->]. cbn [option_map]. eauto.
Qed.

Lemma for_files_items files :
  forall rs rs' (st st' : state W),
    for_files files rs st = (inr rs', st') ->
    exists items, batch_named_items files = Some items.
Proof.
  induction files as [ | file files IH ]; intros rs rs' st st' Hrun;
    [ now exists [] | ].
  rewrite for_files_step in Hrun. cbn [batch_named_items].
  unfold file_named_items.
  destruct (is_zip_name file).
  - destruct (zipfile_open (content file)) as [e | z]; [ discriminate | ].
    destruct (for_zip_infos z rs st) as [[e | rs1] st1] eqn:Hz; [ discriminate | ].
    apply for_zip_infos_items in Hz as [items0 ->].
    apply IH in Hrun as [items ->]. eauto.
  - destruct (process_image _ st) as [[e | v] st1]; [ discriminate | ].
    destruct (append_result _ _ rs st1) as [[e | rs1] st2]; [ discriminate | ].
    apply IH in Hrun as [items ->]. eauto.
Qed.

Lemma batch_named_items_no_archive (files : list FileStorage) :
  forallb (fun file => negb (is_zip_name file)) files = true ->
  batch_named_items files =
    Some (map (fun file => (str_lower (filename file), content file)) files).
Proof.
  induction files as [ | file files IH ]; [ reflexivity | ].
  cbn [forallb]. intros Hall. apply andb_true_iff in Hall as [Hfile Hall].
  apply negb_true_iff in Hfile.
  cbn [batch_named_items map]. unfold file_named_items.
  now rewrite Hfile, (IH Hall).
Qed.

End Flattening.

(** C5.  The result list of a request is the extractor's results on the
    items of the batch, taken in processing order and each under its item's
    name: top-level uploads in request order under their lowercased names,
    the entries of an archive in listing order at the place of the archive,
    directories skipped; an item whose result is [None] or empty
    contributes nothing and leaves no placeholder.  A request is answered
    200 exactly with that list, when it is not empty and nothing raised.
    So the names of the records are a subsequence of the names of the
    batch, all of them when every item yields a record; and for uploads
    none of which is an archive the items are the uploads in request
    order. *)
Theorem upload_image_preserves_order
    `{Collaborators W} (files : list FileStorage) (st : state W) :
  (forall r st',
     upload_image files st = (r, st') ->
     status r = 200%Z ->
     exists items results st1 names,
       batch_named_items files = Some items /\
       extract_all items (loop_start st) = (inr results, st1) /\
       r = Response 200 (VDict [(lit "invoices", VList results)]) /\
       st' = State (world st1) (log st1 ++ [ThreadJoin]) /\
       results <> [] /\
       map record_name results = map Some names /\
       names `sublist_of` item_names files /\
       (length results = length (item_names files) -> names = item_names files)) /\
  (forall items results st1,
     batch_named_items files = Some items ->
     extract_all items (loop_start st) = (inr results, st1) ->
     results <> [] ->
     upload_image files st =
       (Response 200 (VDict [(lit "invoices", VList results)]),
        State (world st1) (log st1 ++ [ThreadJoin]))) /\
  (forallb (fun file => negb (is_zip_name file)) files = true ->
   batch_named_items files =
     Some (map (fun file => (str_lower (filename file), content file)) files) /\
   item_names files = map (fun file => str_lower (filename file)) files).
Proof.
  split; [ | split ].
  - intros r st' Hrun Hstatus. destruct files as [ | file files ].
    { rewrite upload_image_no_files in Hrun. injection Hrun as <- <-.
      discriminate. }
    rewrite upload_image_files in Hrun.
    destruct (for_files (file :: files) [] (loop_start st))
      as [[e | [ | r0 rs]] st1] eqn:Hloop;
      injection Hrun as <- <-; try discriminate.
    destruct (for_files_items _ _ _ _ _ Hloop) as [items Hitems].
    pose proof Hloop as Hflat. rewrite (for_files_flat _ _ _ _ Hitems) in Hflat.
    apply for_files_spec in Hloop as [_ Hrs].
    destruct (Hrs _ eq_refl) as (new & names & Hnew & Hmap & Hsub).
    cbn [app] in Hnew. subst new.
    destruct (extract_all items (loop_start st)) as [[e | new] st2] eqn:Hall;
      [ discriminate | ].
    cbn [app] in Hflat. injection Hflat as -> ->.
    exists items, (r0 :: rs), st1, names.
    split_and!; try assumption; try reflexivity; try discriminate.
    intros Hlen. apply sublist_same_length; [ assumption | ].
    rewrite <- Hlen, <- (length_map record_name), Hmap. now rewrite length_map.
  - intros items results st1 Hitems Hrun Hresults.
    destruct files as [ | file files ].
    { injection Hitems as <-. injection Hrun as <- <-. congruence. }
    rewrite upload_image_files, (for_files_flat _ _ _ _ Hitems), Hrun.
    cbn [app]. destruct results; [ congruence | reflexivity ].
  - intros Hall. split.
    + now apply batch_named_items_no_archive.
    + now apply item_names_no_archive.
Qed.

Lemma upload_image_preserves_order_witness :
  upload_image Samples.mixed_batch (State Samples.mixed_replies []) =
    (Response 200
       (VDict [(lit "invoices",
                VList [VDict [(lit "invoice_no", VStr (lit "A1"));
                              (lit "timestamp",
                               VStr (lit "2024-05-01T10:00:00.000000+00:00"));
                              (lit "filename", VStr (lit "a.png"))];
                       VDict [(lit "invoice_no", VStr (lit "B2"));
                              (lit "total", VInt 40);
                              (lit "timestamp",
                               VStr (lit "2024-05-01T10:00:00.000000+00:00"));
                              (lit "filename", VStr (lit "scans/a.png"))]])]),
     State (world (State ([] : Demo.replies) [SetProgress 0; ThreadStart]))
       (log (State ([] : Demo.replies) [SetProgress 0; ThreadStart])
        ++ [ThreadJoin])).
Proof.
  destruct (upload_image_preserves_order Samples.mixed_batch
              (State Samples.mixed_replies [])) as (_ & Hflat & _).
  apply (Hflat
           [(lit "a.png", Demo.png_bytes); (lit "notes.txt", Demo.text_bytes);
            (lit "scans/a.png", Demo.png_bytes);
            (lit "scans/notes.txt", Demo.text_bytes);
            (lit "scans/B.JPG", Demo.png_bytes)]).
  - vm_compute. reflexivity.
  - vm_compute. reflexivity.
  - discriminate.
Defined.

Section EmptyBatch.
Context `{Collaborators W}.

Lemma every_item_fails_app items1 items2 (w : W) :
  every_item_fails (items1 ++ items2) w =
    match every_item_fails items1 w with
    | Some w1 => every_item_fails items2 w1
    | None => None
    end.
Proof.
  revert w. induction items1 as [ | image_data items1 IH ]; intros w;
    [ reflexivity | ].
  cbn [app every_item_fails]. destruct (sniffed_as_image image_data); [ | apply IH ].
  destruct (generate_content _ w) as [[e | text] w1]; [ reflexivity | ].
  destruct (parse_json text); try reflexivity. apply IH.
Qed.

Lemma for_zip_infos_all_fail infos :
  forall items rs (st : state W) w',
    entry_items infos = Some items ->
    every_item_fails items (world st) = Some w' ->
    for_zip_infos infos rs st = (inr rs, State w' (log st)).
Proof.
  induction infos as [ | zi infos IH ]; intros items rs st w' Hitems Hfail.
  - injection Hitems as <-. injection Hfail as <-. now destruct st.
  - rewrite for_zip_infos_step. cbn [entry_items] in Hitems.
    destruct (zi_is_dir zi); [ now apply (IH items) | ].
    destruct (zi_read zi) as [e | image_bytes]; [ discriminate | ].
    destruct (entry_items infos) as [items' | ]; [ | discriminate ].
    injection Hitems as <-. cbn [every_item_fails] in Hfail.
    destruct (sniffed_as_image image_bytes) eqn:Hmime.
    + destruct (generate_content (prompt_for image_bytes) (world st))
        as [[e | text] w1] eqn:Hgen; [ discriminate | ].
      rewrite (process_image_model_replies _ _ _ _ Hmime Hgen).
      destruct (parse_json text); try discriminate.
      change (append_result VNone (zi_filename zi) rs (State w1 (log st)))
        with (@inr exn _ rs, State w1 (log st)).
      now apply (IH items' rs (State w1 (log st)) w').
    + rewrite (process_image_not_image _ _ Hmime).
      change (append_result VNone (zi_filename zi) rs st) with (@inr exn _ rs, st).
      now apply (IH items').
Qed.

Lemma for_files_all_fail files :
  forall items rs (st : state W) w',
    batch_items files = Some items ->
    every_item_fails items (world st) = Some w' ->
    for_files files rs st = (inr rs, State w' (log st)).
Proof.
  induction files as [ | file files IH ]; intros items rs st w' Hitems Hfail.
  - injection Hitems as <-. injection Hfail as <-. now destruct st.
  - rewrite for_files_step. cbn [batch_items] in Hitems.
    unfold file_items in Hitems.
    destruct (is_zip_name file).
    + destruct (zipfile_open (content file)) as [e | infos]; [ discriminate | ].
      destruct (entry_items infos) as [items0 | ] eqn:Hentries; [ | discriminate ].
      destruct (batch_items files) as [items' | ]; [ | discriminate ].
      injection Hitems as <-. rewrite every_item_fails_app in Hfail.
      destruct (every_item_fails items0 (world st)) as [w1 | ] eqn:Hfail0;
        [ | discriminate ].
      rewrite (for_zip_infos_all_fail _ _ rs st w1 Hentries Hfail0).
      now apply (IH items' rs (State w1 (log st)) w').
    + destruct (batch_items files) as [items' | ]; [ | discriminate ].
      injection Hitems as <-. cbn [app every_item_fails] in Hfail.
      destruct (sniffed_as_image (content file)) eqn:Hmime.
      * destruct (generate_content (prompt_for (content file)) (world st))
          as [[e | text] w1] eqn:Hgen; [ discriminate | ].
        rewrite (process_image_model_replies _ _ _ _ Hmime Hgen).
        destruct (parse_json text); try discriminate.
        change (append_result VNone (str_lower (filename file)) rs
                  (State w1 (log st)))
          with (@inr exn _ rs, State w1 (log st)).
        now apply (IH items' rs (State w1 (log st)) w').
      * rewrite (process_image_not_image _ _ Hmime).
        change (append_result VNone (str_lower (filename file)) rs st)
          with (@inr exn _ rs, st).
        now apply (IH items').
Qed.

End EmptyBatch.

(** C6.  A request with files all of whose items fail validation or
    parsing is answered 400 with the message for no valid image, after the
    thread was started and joined.  A request without files is answered 400
    with the other message before anything else happens: the world is
    untouched and no thread is started. *)
Theorem upload_image_no_valid_images
    `{Collaborators W} (files : list FileStorage) (st : state W) :
  (forall items w',
     files <> [] ->
     batch_items files = Some items ->
     every_item_fails items (world st) = Some w' ->
     upload_image files st =
       (Response 400 (error_body no_valid_images),
        State w' (log st ++ [SetProgress 0; ThreadStart; ThreadJoin]))) /\
  upload_image [] st =
    (Response 400 (error_body no_files_uploaded),
     State (world st) (log st ++ [SetProgress 0])) /\
  error_body no_valid_images <> error_body no_files_uploaded.
Proof.
  split; [ | split ].
  - intros items w' Hfiles Hitems Hfail.
    destruct files as [ | file files ]; [ congruence | ].
    rewrite upload_image_files.
    rewrite (for_files_all_fail _ items [] (loop_start st) w' Hitems Hfail).
    unfold loop_start. cbn [world log]. now rewrite <- app_assoc.
  - apply upload_image_no_files.
  - discriminate.
Qed.

Lemma upload_image_no_valid_images_witness :
  upload_image Samples.no_image_batch (State Samples.no_image_replies []) =
    (Response 400 (error_body no_valid_images),
     State [] [SetProgress 0; ThreadStart; ThreadJoin]).
Proof.
  destruct (upload_image_no_valid_images Samples.no_image_batch
              (State Samples.no_image_replies [])) as (Hfail & _ & _).
  apply (Hfail [Demo.text_bytes; Demo.png_bytes] []).
  - discriminate.
  - vm_compute. reflexivity.
  - vm_compute. reflexivity.
Defined.


Lemma for_files_app `{Collaborators W} (files1 files2 : list FileStorage) :
  forall rs (st : state W),
    for_files (files1 ++ files2) rs st =
      match for_files files1 rs st with
      | (inl e, st1) => (inl e, st1)
      | (inr rs1, st1) => for_files files2 rs1 st1
      end.
Proof.
  induction files1 as [ | file files1 IH ]; intros rs st; [ reflexivity | ].
  cbn [app]. rewrite !for_files_step.
  destruct (is_zip_name file).
  - destruct (zipfile_open (content file)); [ reflexivity | ].
    destruct (for_zip_infos _ rs st) as [[e | rs1] st1]; [ reflexivity | apply IH ].
  - destruct (process_image _ st) as [[e | v] st1]; [ reflexivity | ].
    destruct (append_result _ _ rs st1) as [[e | rs1] st2]; [ reflexivity | apply IH ].
Qed.

(** C7.  A request that holds an upload named as an archive whose bytes
    cannot be opened as one is answered 500; the body is the error message
    built from the exception that ended the request, which is the one of the
    archive unless an earlier upload of the request raised first.  No list
    of records is returned, whatever the uploads before and after it
    yield. *)
Theorem upload_image_corrupt_archive
    `{Collaborators W} (before after : list FileStorage) (file : FileStorage)
    (e : exn) (st : state W) :
  is_zip_name file = true ->
  zipfile_open (content file) = inl e ->
  upload_image (before ++ file :: after) st =
    match for_files before [] (loop_start st) with
    | (inr _, st1) =>
        (Response 500 (error_body (processing_failed ++ e)), st1)
    | (inl e', st1) =>
        (Response 500 (error_body (processing_failed ++ e')), st1)
    end.
Proof.
  intros Hzip Hopen.
  assert (Hshape : exists f fs, before ++ file :: after = f :: fs)
    by (destruct before; cbn [app]; eauto).
  destruct Hshape as (f & fs & Hshape). rewrite Hshape, upload_image_files.
  rewrite <- Hshape, for_files_app.
  destruct (for_files before [] (loop_start st)) as [[e' | rs1] st1];
    [ reflexivity | ].
  rewrite for_files_step, Hzip, Hopen. reflexivity.
Qed.

Lemma upload_image_corrupt_archive_witness :
  upload_image
    ([Demo.upload "A.PNG" Demo.png_bytes] ++
     Demo.upload "Broken.Zip" Demo.text_bytes ::
     [Demo.upload "b.png" Demo.png_bytes])
    (State Samples.corrupt_archive_replies []) =
    (Response 500
       (error_body (lit "Invoice processing failed: File is not a zip file")),
     State [inr (Demo.fenced (lit "{'invoice_no': 'B2'}"))]
       [SetProgress 0; ThreadStart]).
Proof.
  rewrite (upload_image_corrupt_archive
             [Demo.upload "A.PNG" Demo.png_bytes]
             [Demo.upload "b.png" Demo.png_bytes]
             (Demo.upload "Broken.Zip" Demo.text_bytes)
             (lit "File is not a zip file")
             (State Samples.corrupt_archive_replies [])).
  - vm_compute. reflexivity.
  - vm_compute. reflexivity.
  - vm_compute. reflexivity.
Defined.

(** ** The progress counter *)

Section Actions.
Context `{Collaborators W}.

(** What a request does to the counter depends only on how it ends. *)
Lemma upload_actions_cases (files : list FileStorage) (w : W) :
  (files = [] /\ upload_actions files w = [SetProgress 0]) \/
  (files <> [] /\ status (upload_response files w) = 500%Z /\
   upload_actions files w = [SetProgress 0; ThreadStart]) \/
  (files <> [] /\ status (upload_response files w) <> 500%Z /\
   upload_actions files w = [SetProgress 0; ThreadStart; ThreadJoin]).
Proof.
  unfold upload_actions, upload_response.
  destruct files as [ | file files ]; [ left; split; reflexivity | right ].
  rewrite upload_image_files.
  destruct (for_files (file :: files) [] (loop_start (State w [])))
    as [[e | [ | r rs]] st1] eqn:Hloop;
    apply for_files_spec in Hloop as [Hlog _]; cbn [fst snd status log];
    rewrite Hlog; [ left | right | right ]; repeat split; discriminate.
Qed.

End Actions.

Module TrackerFacts.
Import Tracker.

Lemma run_rtc schedule c : rtc step c (run schedule c).
Proof.
  revert c. induction schedule as [ | b schedule IH ]; intros c; [ constructor | ].
  cbn [run]. destruct b.
  - destruct (step_handler c) as [c' | ] eqn:E; cbn [default]; [ | apply IH ].
    eapply rtc_l; [ left; exact E | apply IH ].
  - destruct (step_advancer c) as [c' | ] eqn:E; cbn [default]; [ | apply IH ].
    eapply rtc_l; [ right; exact E | apply IH ].
Qed.

Lemma in_step_bounds c : in_step c -> (0 <= progress c <= 100)%Z.
Proof.
  intros [_ Hadv]. destruct (advancer c) as [ws | ].
  - destruct Hadv as (n & Hn & _ & ->). lia.
  - rewrite Hadv. lia.
Qed.

Lemma in_step_step c c' :
  in_step c -> step c c' -> in_step c' /\ (progress c <= progress c')%Z.
Proof.
  destruct c as [p k a]. intros [Hk Hadv] [Hstep | Hstep]; cbn in *.
  - unfold step_handler in Hstep. cbn in Hstep.
    destruct k as [ | [v | | ] k ]; [ discriminate | | | ].
    + inversion Hk as [ | ? ? [Hbad | Hbad] _ ]; discriminate.
    + destruct a; [ discriminate | ]. injection Hstep as <-.
      inversion Hk; subst. split; [ split; [ assumption | ] | cbn; lia ].
      cbn. exists 0%nat. split; [ lia | ]. split; [ reflexivity | cbn; lia ].
    + destruct a as [[ | ] | ]; try discriminate. injection Hstep as <-.
      inversion Hk; subst. split; [ split; assumption | cbn; lia ].
  - unfold step_advancer in Hstep. cbn in Hstep.
    destruct a as [[ | v ws] | ]; try discriminate. injection Hstep as <-.
    destruct Hadv as (n & Hn & Hws & ->).
    destruct (100 - n)%nat as [ | m ] eqn:Hm; [ discriminate | ].
    cbn [seq map] in Hws. injection Hws as -> ->.
    split; [ split; [ assumption | ] | cbn; lia ].
    cbn. exists (S n). split; [ lia | ]. split; [ | reflexivity ].
    replace (100 - S n)%nat with m by lia. reflexivity.
Qed.

Lemma in_step_rtc c c' :
  in_step c -> rtc step c c' -> in_step c' /\ (progress c <= progress c')%Z.
Proof.
  intros Hc Hrun. induction Hrun as [ c | c c1 c2 Hstep _ IH ].
  - split; [ assumption | lia ].
  - destruct (in_step_step _ _ Hc Hstep) as [Hc1 Hle].
    destruct (IH Hc1) as [Hc2 Hle']. split; [ assumption | lia ].
Qed.

Lemma joined_step c c' : joined c -> step c c' -> joined c'.
Proof.
  destruct c as [p k a]. unfold joined, step, step_handler, step_advancer.
  cbn. intros Hj [Hstep | Hstep].
  - destruct k as [ | [v | | ] [ | [v' | | ] [ | ? ? ] ] ]; try contradiction;
      try discriminate; destruct a as [[ | ] | ]; try discriminate;
      injection Hstep as <-; cbn; auto.
  - destruct a as [[ | v ws] | ]; try discriminate. injection Hstep as <-.
    cbn. destruct k as [ | [v' | | ] [ | [v'' | | ] [ | ? ? ] ] ];
      try contradiction; auto; discriminate.
Qed.

Lemma joined_rtc c c' : joined c -> rtc step c c' -> joined c'.
Proof. intros Hc Hrun. induction Hrun; eauto using joined_step. Qed.

(** From the arrival of a request the only first step is the reset. *)
Lemma arrival_first_step p tail c :
  step (arrival p (SetProgress 0 :: tail)) c -> c = Config 0 tail None.
Proof.
  unfold step, step_handler, step_advancer, arrival. cbn.
  intros [[= <-] | [=]]. reflexivity.
Qed.

End TrackerFacts.

(** One request and its own thread, no other thread alive: the reset comes
    first, then the counter never decreases and stays within 0..100, and an
    answer given after the join finds it at 100. *)
Lemma tracker_monotone_and_full_after_join
    `{Collaborators W} (files : list FileStorage) (w : W) (p : Z) :
  (forall c1,
     Tracker.step (Tracker.arrival p (upload_actions files w)) c1 ->
     Tracker.progress c1 = 0%Z) /\
  (forall c1 c2 c3,
     Tracker.step (Tracker.arrival p (upload_actions files w)) c1 ->
     rtc Tracker.step c1 c2 ->
     rtc Tracker.step c2 c3 ->
     (0 <= Tracker.progress c2 <= Tracker.progress c3)%Z /\
     (Tracker.progress c3 <= 100)%Z) /\
  (files <> [] ->
   status (upload_response files w) <> 500%Z ->
   (forall c,
      rtc Tracker.step (Tracker.arrival p (upload_actions files w)) c ->
      Tracker.handler c = [] ->
      Tracker.progress c = 100%Z) /\
   (exists c,
      rtc Tracker.step (Tracker.arrival p (upload_actions files w)) c /\
      Tracker.handler c = [])).
Proof.
  assert (Hshape : exists tail,
             upload_actions files w = SetProgress 0 :: tail /\
             Forall (fun a => a = ThreadStart \/ a = ThreadJoin) tail /\
             (files <> [] -> status (upload_response files w) <> 500%Z ->
              tail = [ThreadStart; ThreadJoin])).
  { destruct (upload_actions_cases files w)
      as [(Hf & ->) | [(Hf & Hs & ->) | (Hf & Hs & ->)]];
      eexists; (split; [ reflexivity | ]); split; auto; try contradiction;
      repeat constructor; auto. }
  destruct Hshape as (tail & -> & Htail & Hjoin).
  assert (Hfirst : Tracker.in_step (Tracker.Config 0 tail None))
    by (split; [ exact Htail | reflexivity ]).
  split; [ | split ].
  - intros c1 Hstep. now rewrite (TrackerFacts.arrival_first_step _ _ _ Hstep).
  - intros c1 c2 c3 Hstep H12 H23.
    rewrite (TrackerFacts.arrival_first_step _ _ _ Hstep) in H12.
    destruct (TrackerFacts.in_step_rtc _ _ Hfirst H12) as [Hc2 _].
    destruct (TrackerFacts.in_step_rtc _ _ Hc2 H23) as [Hc3 Hle].
    pose proof (TrackerFacts.in_step_bounds _ Hc2).
    pose proof (TrackerFacts.in_step_bounds _ Hc3). lia.
  - intros Hfiles Hstatus. rewrite (Hjoin Hfiles Hstatus) in *. split.
    + intros c Hrun Hdone. apply rtc_inv in Hrun as [<- | (c1 & Hstep & Hrun)];
        [ discriminate | ].
      rewrite (TrackerFacts.arrival_first_step _ _ _ Hstep) in Hrun.
      destruct (TrackerFacts.in_step_rtc _ _ Hfirst Hrun) as [[_ Hadv] _].
      assert (Hj : Tracker.joined c)
        by (eapply TrackerFacts.joined_rtc; [ | exact Hrun ]; exact I).
      unfold Tracker.joined in Hj. rewrite Hdone in Hj. rewrite Hj in Hadv.
      destruct Hadv as (n & Hn & Hws & ->).
      destruct (100 - n)%nat eqn:Hm; [ lia | discriminate ].
    + exists (Tracker.run Tracker.patient_schedule
                (Tracker.arrival p [SetProgress 0; ThreadStart; ThreadJoin])).
      split; [ apply TrackerFacts.run_rtc | vm_compute; reflexivity ].
Qed.

Module SharedFacts.
Import Shared.

Lemma forget_with_earlier threads t : forget (with_earlier threads t) = t.
Proof. now destruct t. Qed.

Lemma shared_run_rtc schedule c : rtc step c (run schedule c).
Proof.
  revert c. induction schedule as [ | m schedule IH ]; intros c; [ constructor | ].
  cbn [run]. destruct (step_move m c) as [c' | ] eqn:E; cbn [default];
    [ | apply IH ].
  eapply rtc_l; [ | apply IH ].
  destruct m; cbn [step_move] in E; unfold step; eauto.
Qed.

(** While no earlier thread is running, the system moves as [Tracker]
    does. *)
Lemma quiet_step c c' :
  quiet c -> step c c' ->
  Tracker.step (forget c) (forget c') /\ quiet c'.
Proof.
  intros Hquiet [Hstep | [Hstep | [i Hstep]]].
  - unfold step_handler in Hstep.
    destruct (Tracker.step_handler (forget c)) as [t | ] eqn:E; [ | discriminate ].
    injection Hstep as <-. rewrite forget_with_earlier.
    split; [ now left | exact Hquiet ].
  - unfold step_advancer in Hstep.
    destruct (Tracker.step_advancer (forget c)) as [t | ] eqn:E; [ | discriminate ].
    injection Hstep as <-. rewrite forget_with_earlier.
    split; [ now right | exact Hquiet ].
  - unfold step_earlier in Hstep.
    destruct (earlier c !! i) as [[ | v ws] | ] eqn:E; try discriminate.
    pose proof (Forall_lookup_1 _ _ _ _ Hquiet E). discriminate.
Qed.

Lemma quiet_rtc c c' :
  quiet c -> rtc step c c' ->
  rtc Tracker.step (forget c) (forget c') /\ quiet c'.
Proof.
  intros Hquiet Hrun. induction Hrun as [ c | c c1 c2 Hstep _ IH ].
  - split; [ constructor | exact Hquiet ].
  - destruct (quiet_step _ _ Hquiet Hstep) as [Ht Hq1].
    destruct (IH Hq1) as [Hrt Hq2]. split; [ | exact Hq2 ].
    eapply rtc_l; eassumption.
Qed.

End SharedFacts.

(** C8, as the program has it.  Take an upload that arrives when no thread
    of an earlier request is still running.  The first thing that happens
    to the counter is the reset to 0; from then on its value never
    decreases and stays within 0..100, whenever it is read.  When the
    request ends without an exception (a 200, or the 400 for no valid
    image), the response is returned only after the join and finds the
    counter at 100, and such a response is reached.  A request answered
    500 is not joined; nothing is said here about the value its response
    finds. *)
Theorem progress_monotone_and_full_after_join
    `{Collaborators W} (files : list FileStorage) (w : W) (p : Z)
    (threads : list (list Z)) :
  Forall (fun ws => ws = []) threads ->
  (forall c1,
     Shared.step (Shared.arrival p (upload_actions files w) threads) c1 ->
     Shared.progress c1 = 0%Z) /\
  (forall c1 c2 c3,
     Shared.step (Shared.arrival p (upload_actions files w) threads) c1 ->
     rtc Shared.step c1 c2 ->
     rtc Shared.step c2 c3 ->
     (0 <= Shared.progress c2 <= Shared.progress c3)%Z /\
     (Shared.progress c3 <= 100)%Z) /\
  (files <> [] ->
   status (upload_response files w) <> 500%Z ->
   (forall c,
      rtc Shared.step (Shared.arrival p (upload_actions files w) threads) c ->
      Shared.handler c = [] ->
      Shared.progress c = 100%Z) /\
   (exists c,
      rtc Shared.step (Shared.arrival p (upload_actions files w) threads) c /\
      Shared.handler c = [])).
Proof.
  intros Hthreads.
  assert (Hquiet : Shared.quiet (Shared.arrival p (upload_actions files w) threads))
    by exact Hthreads.
  destruct (tracker_monotone_and_full_after_join files w p)
    as (Hreset & Hmono & Hjoin).
  split; [ | split ].
  - intros c1 Hstep.
    destruct (SharedFacts.quiet_step _ _ Hquiet Hstep) as [Ht _].
    exact (Hreset _ Ht).
  - intros c1 c2 c3 Hstep H12 H23.
    destruct (SharedFacts.quiet_step _ _ Hquiet Hstep) as [Ht Hq1].
    destruct (SharedFacts.quiet_rtc _ _ Hq1 H12) as [Ht12 Hq2].
    destruct (SharedFacts.quiet_rtc _ _ Hq2 H23) as [Ht23 _].
    exact (Hmono _ _ _ Ht Ht12 Ht23).
  - intros Hfiles Hstatus. destruct (Hjoin Hfiles Hstatus) as [Hfull _]. split.
    + intros c Hrun Hdone.
      destruct (SharedFacts.quiet_rtc _ _ Hquiet Hrun) as [Ht _].
      exact (Hfull _ Ht Hdone).
    + exists (Shared.run Shared.patient_schedule
                (Shared.arrival p (upload_actions files w) threads)).
      split; [ apply SharedFacts.shared_run_rtc | ].
      destruct (upload_actions_cases files w)
        as [(Hf & _) | [(_ & Hs & _) | (_ & _ & ->)]];
        [ contradiction | contradiction | ].
      vm_compute. reflexivity.
Qed.

Lemma progress_monotone_and_full_after_join_witness :
  (forall c,
     rtc Shared.step
       (Shared.arrival 37
          (upload_actions Samples.mixed_batch Samples.mixed_replies) [[]; []]) c ->
     Shared.handler c = [] ->
     Shared.progress c = 100%Z) /\
  (exists c,
     rtc Shared.step
       (Shared.arrival 37
          (upload_actions Samples.mixed_batch Samples.mixed_replies) [[]; []]) c /\
     Shared.handler c = []).
Proof.
  apply (progress_monotone_and_full_after_join
           Samples.mixed_batch Samples.mixed_replies 37 [[]; []]).
  - repeat constructor.
  - discriminate.
  - vm_compute. discriminate.
Defined.

(** C8 as stated fails for a request that ends in the [except] clause: its
    response is returned without a join, here while the counter is still
    at 0.  The thread it leaves behind goes on writing, and the next upload,
    the only one in flight, can be told 60 and then 1. *)
Lemma response_returned_before_advance_ends :
  status (upload_response Samples.corrupt_archive_batch
            Samples.corrupt_archive_replies) = 500%Z /\
  rtc Shared.step
    (Shared.arrival 100
       (upload_actions Samples.corrupt_archive_batch
          Samples.corrupt_archive_replies) [])
    (Shared.run [Shared.Handler; Shared.Handler]
       (Shared.arrival 100
          (upload_actions Samples.corrupt_archive_batch
             Samples.corrupt_archive_replies) [])) /\
  Shared.run [Shared.Handler; Shared.Handler]
    (Shared.arrival 100
       (upload_actions Samples.corrupt_archive_batch
          Samples.corrupt_archive_replies) [])
  = Shared.Config 0 [] (Some simulate_progress) [] /\
  Shared.progress (Shared.Config 0 [] (Some simulate_progress) []) <> 100%Z /\
  Shared.reads
    [Shared.Handler; Shared.Handler; Shared.Earlier 0; Shared.Own]
    (Shared.arrival 59
       (upload_actions Samples.mixed_batch Samples.mixed_replies)
       [drop 59 simulate_progress])
  = [0; 0; 60; 1]%Z.
Proof.
  split; [ vm_compute; reflexivity | ].
  split; [ apply SharedFacts.shared_run_rtc | ].
  split; [ vm_compute; reflexivity | ].
  split; [ discriminate | vm_compute; reflexivity ].
Qed.

(** C10.  Every request begins by setting the counter to 0, before the
    check for files.  For a request without files that is all it does: the
    answer is the 400 for no files, no thread is started, the world is left
    as it was, and a read of the counter afterwards returns 0 whatever it
    held before. *)
Theorem upload_image_resets_counter_first
    `{Collaborators W} (files : list FileStorage) (st : state W) (p : Z) :
  (exists tail,
     log (snd (upload_image files st)) = log st ++ SetProgress 0 :: tail) /\
  upload_image [] st =
    (Response 400 (error_body no_files_uploaded),
     State (world st) (log st ++ [SetProgress 0])) /\
  (forall c,
     Tracker.step (Tracker.arrival p (upload_actions [] (world st))) c ->
     c = Tracker.Config 0 [] None /\
     get_progress (Tracker.progress c) =
       Response 200 (VDict [(lit "progress", VInt 0)])) /\
  Tracker.step (Tracker.arrival p (upload_actions [] (world st)))
    (Tracker.Config 0 [] None).
Proof.
  split; [ | split; [ | split ] ].
  - destruct files as [ | file files ].
    + exists []. reflexivity.
    + rewrite upload_image_files.
      destruct (for_files (file :: files) [] (loop_start st))
        as [[e | [ | r rs]] st1] eqn:Hloop;
        apply for_files_spec in Hloop as [Hlog _]; cbn [snd log];
        rewrite Hlog; unfold loop_start; cbn [log].
      * exists [ThreadStart]. reflexivity.
      * exists [ThreadStart; ThreadJoin]. now rewrite <- app_assoc.
      * exists [ThreadStart; ThreadJoin]. now rewrite <- app_assoc.
  - apply upload_image_no_files.
  - intros c Hstep. change (upload_actions [] (world st)) with [SetProgress 0] in Hstep.
    apply TrackerFacts.arrival_first_step in Hstep as ->. split; reflexivity.
  - left. reflexivity.
Qed.

Lemma upload_image_resets_counter_first_witness :
  Tracker.Config 0 [] None = Tracker.Config 0 [] None /\
  get_progress (Tracker.progress (Tracker.Config 0 [] None)) =
    Response 200 (VDict [(lit "progress", VInt 0)]).
Proof.
  destruct (upload_image_resets_counter_first
              (W := Demo.replies) [] (State [] []) 100)
    as (_ & _ & Hread & Hstep).
  apply (Hread _ Hstep).
Defined.

(** ** Scenarios *)

Example loads_numbers :
  Json.loads (lit "[0, -12, 0.0, -0.0, 1e-400, 0.1, 1e400, true, null]") =
    Some (VList [VInt 0; VInt (-12); VFloat (S754_zero false);
                 VFloat (S754_zero true); VFloat (S754_zero false);
                 VFloat (S754_finite false 7205759403792794 (-56));
                 VFloat (S754_infinity false); VBool true; VNone]).
Proof. vm_compute. reflexivity. Qed.

Example loads_duplicate_key :
  Json.loads (lit "{'a': 1, 'b': 2, 'a': 3}") =
    Some (VDict [(lit "a", VInt 3); (lit "b", VInt 2)]).
Proof. vm_compute. reflexivity. Qed.

Example parse_json_two_objects :
  parse_json (lit "first {'a': 1} then {'b': 2}") = VNone.
Proof. vm_compute. reflexivity. Qed.

Example b64encode_hello : b64encode Demo.text_bytes = lit "aGVsbG8=".
Proof. vm_compute. reflexivity. Qed.

(** One valid image whose reply is a fenced object with a zero subtotal. *)
Example scenario_single_image :
  upload_response [Demo.upload "Invoice.PNG" Demo.png_bytes]
    [inr (Demo.fenced (lit "{'invoice_no': 'A1', 'subtotal': 0}"))] =
    Response 200
      (VDict [(lit "invoices",
               VList [VDict [(lit "invoice_no", VStr (lit "A1"));
                             (lit "timestamp",
                              VStr (lit "2024-05-01T10:00:00.000000+00:00"));
                             (lit "filename", VStr (lit "invoice.png"))]])]).
Proof. vm_compute. reflexivity. Qed.

(** An archive with a directory, two images and a text file, after a
    top-level image and a top-level text file. *)
Example scenario_mixed_batch :
  map record_name
    match body (upload_response Samples.mixed_batch Samples.mixed_replies) with
    | VDict [(_, VList results)] => results
    | _ => []
    end = [Some (lit "a.png"); Some (lit "scans/a.png")] /\
  item_names Samples.mixed_batch =
    [lit "a.png"; lit "notes.txt"; lit "scans/a.png"; lit "scans/notes.txt";
     lit "scans/B.JPG"].
Proof. split; vm_compute; reflexivity. Qed.

Example scenario_no_files :
  upload_response (W := Demo.replies) [] [] =
    Response 400 (error_body (lit "No files uploaded")).
Proof. vm_compute. reflexivity. Qed.

(** The counter as the patient schedule leaves it. *)
Example scenario_progress_full :
  Tracker.run Tracker.patient_schedule
    (Tracker.arrival 100
       (upload_actions Samples.mixed_batch Samples.mixed_replies)) =
    Tracker.Config 100 [] (Some []).
Proof. vm_compute. reflexivity. Qed.

(** * Further properties *)

(** ** Dicts *)

Lemma str_eqb_eq a b : str_eqb a b = true <-> a = b.
Proof. unfold str_eqb. apply bool_decide_eq_true. Qed.

Lemma str_eqb_neq a b : str_eqb a b = false <-> a <> b.
Proof. unfold str_eqb. apply bool_decide_eq_false. Qed.

Lemma dict_get_set_other d k v k' :
  k' <> k -> dict_get (dict_set d k v) k' = dict_get d k'.
Proof.
  intros Hne. induction d as [ | [k0 v0] d IH ]; cbn [dict_set dict_get].
  - apply str_eqb_neq in Hne. unfold str_eqb in *.
    rewrite bool_decide_eq_false in Hne. rewrite bool_decide_eq_false_2; auto.
  - destruct (str_eqb k0 k) eqn:E; cbn [dict_get].
    + apply str_eqb_eq in E as ->.
      assert (E' : str_eqb k k' = false) by (apply str_eqb_neq; auto).
      now rewrite E'.
    + destruct (str_eqb k0 k'); [ reflexivity | exact IH ].
Qed.

Lemma dict_get_none d k : k ∉ keys d -> dict_get d k = None.
Proof.
  unfold keys. induction d as [ | [k0 v0] d IH ]; [ reflexivity | ].
  cbn [map fst dict_get]. intros Hk. apply not_elem_of_cons in Hk as [Hne Hk].
  assert (E : str_eqb k0 k = false) by (apply str_eqb_neq; auto).
  rewrite E. now apply IH.
Qed.

Lemma dict_set_keys d k v x :
  x ∈ keys (dict_set d k v) <-> x ∈ keys d \/ x = k.
Proof.
  unfold keys. induction d as [ | [k0 v0] d IH ]; cbn [dict_set map fst].
  - rewrite list_elem_of_singleton. rewrite elem_of_nil. tauto.
  - destruct (str_eqb k0 k) eqn:E; cbn [map fst].
    + apply str_eqb_eq in E as ->. rewrite elem_of_cons. tauto.
    + rewrite !elem_of_cons, IH. tauto.
Qed.

Lemma dict_set_NoDup d k v : NoDup (keys d) -> NoDup (keys (dict_set d k v)).
Proof.
  unfold keys. induction d as [ | [k0 v0] d IH ]; cbn [dict_set map fst].
  - intros _. apply NoDup_singleton.
  - intros Hd. apply NoDup_cons in Hd as [Hk0 Hd].
    destruct (str_eqb k0 k) eqn:E; cbn [map fst].
    + now apply NoDup_cons.
    + apply NoDup_cons. split; [ | now apply IH ].
      intros Hin. apply (dict_set_keys d k v k0) in Hin as [Hin | ->].
      * contradiction.
      * apply str_eqb_neq in E. congruence.
Qed.

Lemma dict_of_pairs_NoDup pairs : NoDup (keys (Json.dict_of_pairs pairs)).
Proof.
  unfold Json.dict_of_pairs.
  assert (Hgen : forall acc, NoDup (keys acc) ->
            NoDup (keys (fold_left (fun d kv => dict_set d (fst kv) (snd kv))
                           pairs acc))).
  { induction pairs as [ | [k v] pairs IH ]; intros acc Hacc; [ exact Hacc | ].
    cbn [fold_left fst snd]. apply IH. now apply dict_set_NoDup. }
  apply Hgen. apply NoDup_nil_2.
Qed.

Lemma loads_brace_pairs r v :
  Json.loads (123 :: r) = Some v ->
  exists pairs, v = VDict (Json.dict_of_pairs pairs).
Proof.
  unfold Json.loads, Json.enough_fuel. cbn [startswith N.eqb Pos.eqb andb].
  cbn [Json.skip_ws Json.is_ws N.eqb Pos.eqb orb].
  cbn [Json.scan_once N.eqb Pos.eqb].
  intros Hl. repeat case_match; simplify_eq; eauto.
  now exists [].
Qed.

(** ** More on the reply parser *)

(** X1.  Whatever the reply, [parse_json] returns [None] or a dict, and the
    keys of that dict are pairwise distinct. *)
Theorem parse_json_none_or_dict_with_distinct_keys (text : str) :
  parse_json text = VNone \/
  exists d, parse_json text = VDict d /\ NoDup (keys d).
Proof.
  unfold parse_json.
  destruct (if contains text Re.fence_open then Re.search_fenced text
            else Re.search_braces text) as [g | ] eqn:E; [ | now left ].
  assert (Hg : exists r, g = 123 :: r).
  { destruct (contains text Re.fence_open);
      eauto using search_fenced_brace, search_braces_brace. }
  destruct Hg as [r ->].
  destruct (Json.loads (123 :: r)) as [v | ] eqn:L; [ | now left ].
  apply loads_brace_pairs in L as [pairs ->]. right.
  eexists. split; [ reflexivity | apply dict_of_pairs_NoDup ].
Qed.

Lemma no_char_app c s1 s2 :
  no_char c (s1 ++ s2) = no_char c s1 && no_char c s2.
Proof. unfold no_char. apply forallb_app. Qed.

Lemma no_char_tail c x s : no_char c (x :: s) = true -> no_char c s = true.
Proof. cbn [no_char forallb]. intros H. now apply andb_true_iff in H as [_ H]. Qed.

Lemma no_char_drop c n s : no_char c s = true -> no_char c (drop n s) = true.
Proof.
  revert s. induction n as [ | n IH ]; intros s; [ now rewrite drop_0 | ].
  destruct s as [ | x s ]; [ reflexivity | ].
  intros H. cbn [drop]. apply IH. eapply no_char_tail, H.
Qed.

Lemma no_char_skip_space c s :
  no_char c s = true -> no_char c (Re.skip_space s) = true.
Proof.
  induction s as [ | x s IH ]; [ reflexivity | ].
  intros H. cbn [Re.skip_space]. destruct (isspace x); [ | exact H ].
  apply IH. eapply no_char_tail, H.
Qed.

Lemma no_char_head c s : no_char c (c :: s) = false.
Proof. cbn [no_char forallb]. now rewrite N.eqb_refl. Qed.

Lemma lazy_body_needs_closing_brace s :
  no_char 125 s = true -> Re.lazy_body s = None.
Proof.
  induction s as [ | c s IH ]; [ reflexivity | ].
  cbn [no_char forallb]. intros H. apply andb_true_iff in H as [Hc H].
  apply negb_true_iff in Hc. cbn [Re.lazy_body]. rewrite Hc. cbn [andb].
  now rewrite (IH H).
Qed.

Lemma match_fenced_needs_braces s :
  no_char 123 s = true \/ no_char 125 s = true -> Re.match_fenced s = None.
Proof.
  intros Hno. unfold Re.match_fenced.
  destruct (startswith s Re.fence_open); [ | reflexivity ].
  destruct (Re.skip_space (drop (length Re.fence_open) s)) as [ | c s' ] eqn:E;
    [ reflexivity | ].
  destruct (c =? 123) eqn:Hc; [ | reflexivity ].
  apply N.eqb_eq in Hc as ->.
  destruct Hno as [Hno | Hno].
  - apply (no_char_drop _ (length Re.fence_open)) in Hno.
    apply no_char_skip_space in Hno. rewrite E, no_char_head in Hno.
    discriminate.
  - apply (no_char_drop _ (length Re.fence_open)) in Hno.
    apply no_char_skip_space in Hno. rewrite E in Hno.
    apply no_char_tail in Hno.
    now rewrite (lazy_body_needs_closing_brace _ Hno).
Qed.

Lemma search_fenced_needs_braces s :
  no_char 123 s = true \/ no_char 125 s = true -> Re.search_fenced s = None.
Proof.
  induction s as [ | c s IH ]; intros Hno; cbn [Re.search_fenced];
    rewrite (match_fenced_needs_braces _ Hno); [ reflexivity | ].
  apply IH. destruct Hno as [Hno | Hno]; [ left | right ];
    eapply no_char_tail, Hno.
Qed.

Lemma search_braces_needs_braces s :
  no_char 123 s = true \/ no_char 125 s = true -> Re.search_braces s = None.
Proof.
  induction s as [ | c s IH ]; intros Hno; [ reflexivity | ].
  cbn [Re.search_braces].
  assert (Hs : no_char 123 s = true \/ no_char 125 s = true)
    by (destruct Hno as [Hno | Hno]; [ left | right ]; eapply no_char_tail, Hno).
  destruct (c =? 123) eqn:Hc; [ | now apply IH ].
  apply N.eqb_eq in Hc as ->.
  destruct Hno as [Hno | Hno].
  - rewrite no_char_head in Hno. discriminate.
  - apply no_char_tail in Hno. rewrite (greedy_body_none _ Hno). now apply IH.
Qed.

(** X2.  A reply without an opening brace, or without a closing brace, is
    answered [None], fenced or not; the empty reply is one. *)
Theorem parse_json_needs_braces (text : str) :
  no_char 123 text = true \/ no_char 125 text = true ->
  parse_json text = VNone.
Proof.
  intros Hno. unfold parse_json.
  rewrite (search_fenced_needs_braces _ Hno), (search_braces_needs_braces _ Hno).
  now destruct (contains text Re.fence_open).
Qed.

Lemma parse_json_needs_braces_witness :
  parse_json (lit "```json
total: 12.50 }
```") = VNone /\ parse_json [] = VNone.
Proof.
  split; apply parse_json_needs_braces.
  - left. vm_compute. reflexivity.
  - left. vm_compute. reflexivity.
Defined.

Lemma contains_false_head s p :
  contains s p = false -> startswith s p = false.
Proof.
  destruct s; cbn [contains]; intros H; now apply orb_false_iff in H as [H _].
Qed.

Lemma contains_false_tail c s p :
  contains (c :: s) p = false -> contains s p = false.
Proof. cbn [contains]. intros H. now apply orb_false_iff in H as [_ H]. Qed.

Lemma contains_false_skip_space s p :
  contains s p = false -> contains (Re.skip_space s) p = false.
Proof.
  induction s as [ | c s IH ]; [ trivial | ].
  intros H. cbn [Re.skip_space]. destruct (isspace c); [ | exact H ].
  eapply IH, contains_false_tail, H.
Qed.

Lemma lazy_body_needs_fence s :
  contains s Re.fence_close = false -> Re.lazy_body s = None.
Proof.
  induction s as [ | c s IH ]; [ reflexivity | ].
  intros H. apply contains_false_tail in H. cbn [Re.lazy_body].
  unfold Re.closes.
  rewrite (contains_false_head _ _ (contains_false_skip_space _ _ H)).
  rewrite andb_false_r. now rewrite (IH H).
Qed.

Lemma match_fenced_not_at_fence s :
  startswith s Re.fence_open = false -> Re.match_fenced s = None.
Proof. unfold Re.match_fenced. now intros ->. Qed.

Lemma search_fenced_needs_fence s :
  contains s Re.fence_open = false -> Re.search_fenced s = None.
Proof.
  induction s as [ | c s IH ]; intros H; cbn [Re.search_fenced];
    rewrite (match_fenced_not_at_fence _ (contains_false_head _ _ H));
    [ reflexivity | ].
  eapply IH, contains_false_tail, H.
Qed.

Lemma fence_open_has_fence_close s :
  contains s Re.fence_close = false -> contains s Re.fence_open = false.
Proof.
  rewrite fence_close_chars, fence_open_chars.
  induction s as [ | c s IH ]; [ reflexivity | ].
  intros H. cbn [contains] in *. apply orb_false_iff in H as [Hhead Htail].
  rewrite (IH Htail), orb_false_r.
  destruct s as [ | c1 [ | c2 s ] ]; cbn [startswith] in *;
    rewrite ?andb_false_r; try reflexivity.
  replace (startswith s []) with true in Hhead by now destruct s.
  rewrite andb_true_r in Hhead. rewrite !andb_assoc in *.
  now rewrite Hhead.
Qed.

(** After the opening fence nothing starts a match before [rest]. *)
Lemma search_fenced_after_tag rest :
  Re.search_fenced (Re.fence_open ++ rest) =
    match Re.match_fenced (Re.fence_open ++ rest) with
    | Some g => Some g
    | None => Re.search_fenced rest
    end.
Proof.
  rewrite fence_open_chars. cbn [app Re.search_fenced].
  destruct (Re.match_fenced (96 :: _)); [ reflexivity | ].
  now rewrite !match_fenced_not_at_fence
    by (rewrite fence_open_chars; reflexivity).
Qed.

(** X3.  A reply whose fence tagged json is never closed (no three
    backquotes follow the tag) is answered [None], even when it holds a
    decodable object. *)
Theorem parse_json_unclosed_fence (pre rest : str) :
  no_char 96 pre = true ->
  contains rest Re.fence_close = false ->
  parse_json (pre ++ Re.fence_open ++ rest) = VNone.
Proof.
  intros Hpre Hrest. unfold parse_json.
  rewrite contains_app_intro, (search_fenced_skip _ _ Hpre).
  rewrite search_fenced_after_tag.
  rewrite (search_fenced_needs_fence _ (fence_open_has_fence_close _ Hrest)).
  unfold Re.match_fenced. rewrite startswith_app, drop_app_length.
  pose proof (contains_false_skip_space _ _ Hrest) as Hskip.
  destruct (Re.skip_space rest) as [ | c s' ]; [ reflexivity | ].
  destruct (c =? 123); [ | reflexivity ].
  now rewrite (lazy_body_needs_fence _ (contains_false_tail _ _ _ Hskip)).
Qed.

Lemma parse_json_unclosed_fence_witness :
  parse_json (lit "Result: " ++ Re.fence_open ++ lit "
{'invoice_no': 'A1'}") = VNone.
Proof.
  apply parse_json_unclosed_fence; vm_compute; reflexivity.
Defined.

Lemma tags_blocked_here s :
  tags_blocked s = true -> Re.match_fenced s = None.
Proof.
  intros Hs. unfold Re.match_fenced.
  assert (Hhere : (if startswith s Re.fence_open then
                     match drop (length Re.fence_open) s with
                     | [] => true
                     | c :: _ => negb (isspace c) && negb (c =? 123)
                     end
                   else true) = true)
    by (destruct s; cbn [tags_blocked] in Hs;
        now apply andb_true_iff in Hs as [Hs _]).
  destruct (startswith s Re.fence_open); [ | reflexivity ].
  destruct (drop (length Re.fence_open) s) as [ | c r ]; [ reflexivity | ].
  apply andb_true_iff in Hhere as [Hspace Hbrace].
  apply negb_true_iff in Hspace. apply negb_true_iff in Hbrace.
  now rewrite (skip_space_head _ _ Hspace), Hbrace.
Qed.

Lemma tags_blocked_search s :
  tags_blocked s = true -> Re.search_fenced s = None.
Proof.
  induction s as [ | c s IH ]; intros Hs; cbn [Re.search_fenced];
    rewrite (tags_blocked_here _ Hs); [ reflexivity | ].
  apply IH. cbn [tags_blocked] in Hs. now apply andb_true_iff in Hs as [_ Hs].
Qed.

(** X4.  Once the reply holds the opening fence the bare pattern is not
    tried: if every occurrence of the tag is directly followed by something
    that is neither whitespace nor an opening brace, the answer is [None],
    whatever decodable object the reply holds. *)
Theorem parse_json_text_after_tag (text : str) :
  contains text Re.fence_open = true ->
  tags_blocked text = true ->
  parse_json text = VNone.
Proof.
  intros Htag Hblocked. unfold parse_json.
  now rewrite Htag, (tags_blocked_search _ Hblocked).
Qed.

Lemma parse_json_text_after_tag_witness :
  parse_json (lit "See `invoice`: ```json:
{'invoice_no': 'A1'}
``` or bare {'invoice_no': 'A1'}") = VNone /\
  Json.loads (lit "{'invoice_no': 'A1'}") =
    Some (VDict [(lit "invoice_no", VStr (lit "A1"))]).
Proof.
  split.
  - apply parse_json_text_after_tag; vm_compute; reflexivity.
  - vm_compute. reflexivity.
Defined.

(** ** More on the field normalizer *)

Lemma clean_items_cons k v d :
  clean_items ((k, v) :: d) =
    if passes v then (k, clean_empty v) :: clean_items d else clean_items d.
Proof. unfold clean_items. cbn [List.filter snd]. now destruct (passes v). Qed.

Lemma clean_elems_cons v l :
  clean_elems (v :: l) =
    if passes v then clean_empty v :: clean_elems l else clean_elems l.
Proof. unfold clean_elems. cbn [List.filter]. now destruct (passes v). Qed.

Lemma clean_items_keys d : keys (clean_items d) `sublist_of` keys d.
Proof.
  unfold keys. induction d as [ | [k v] d IH ]; [ constructor | ].
  rewrite clean_items_cons. cbn [map fst].
  destruct (passes v); cbn [map fst]; now constructor.
Qed.

Lemma sublist_member {A} (l1 l2 : list A) x :
  l1 `sublist_of` l2 -> x ∈ l1 -> x ∈ l2.
Proof.
  induction 1 as [ | y l1 l2 _ IH | y l1 l2 _ IH ]; intros Hx.
  - exact Hx.
  - apply elem_of_cons in Hx as [-> | Hx]; [ left | right; auto ].
  - right. auto.
Qed.

(** X5.  Normalizing a dict never adds or reorders keys, and normalizing a
    list never adds elements: the keys of the result are a subsequence of
    the keys of the input, and the result of a list is no longer than the
    list. *)
Theorem clean_empty_only_removes
    (d : list (str * value)) (l : list value) :
  (exists d', clean_empty (VDict d) = VDict d' /\
              keys d' `sublist_of` keys d) /\
  (exists l', clean_empty (VList l) = VList l' /\
              (length l' <= length l)%nat).
Proof.
  split.
  - exists (clean_items d). split; [ apply clean_empty_dict | ].
    apply clean_items_keys.
  - exists (clean_elems l). split; [ apply clean_empty_list | ].
    unfold clean_elems. rewrite length_map. apply List.filter_length_le.
Qed.

(** X6.  Reading a field of a normalized dict whose keys are distinct: the
    field is there exactly when its value in the input is not in the tuple
    of empties, and it holds the normalized input value. *)
Theorem clean_empty_lookup (d : list (str * value)) (k : str) :
  NoDup (keys d) ->
  exists d',
    clean_empty (VDict d) = VDict d' /\
    dict_get d' k =
      match dict_get d k with
      | Some v => if in_empties v then None else Some (clean_empty v)
      | None => None
      end.
Proof.
  intros Hd. exists (clean_items d). split; [ apply clean_empty_dict | ].
  induction d as [ | [k0 v0] d IH ]; [ reflexivity | ].
  unfold keys in Hd. cbn [map fst] in Hd. apply NoDup_cons in Hd as [Hk0 Hd].
  rewrite clean_items_cons. unfold passes. cbn [dict_get].
  destruct (str_eqb k0 k) eqn:E.
  - apply str_eqb_eq in E as ->.
    destruct (in_empties v0); cbn [negb dict_get].
    + apply dict_get_none. intros Hin. apply Hk0.
      eapply sublist_member; [ apply clean_items_keys | exact Hin ].
    + unfold str_eqb. now rewrite bool_decide_eq_true_2.
  - destruct (in_empties v0); cbn [negb dict_get]; rewrite ?E; now apply IH.
Qed.

Lemma clean_empty_lookup_witness :
  exists d',
    clean_empty (VDict [(lit "invoice_no", VStr (lit "A1"));
                        (lit "subtotal", VInt 0)]) = VDict d' /\
    dict_get d' (lit "subtotal") =
      match dict_get [(lit "invoice_no", VStr (lit "A1"));
                      (lit "subtotal", VInt 0)] (lit "subtotal") with
      | Some v => if in_empties v then None else Some (clean_empty v)
      | None => None
      end.
Proof.
  apply clean_empty_lookup. unfold keys. cbn [map fst].
  apply (bool_decide_unpack _). vm_compute. reflexivity.
Defined.

Abbreviation clean_n k := (Nat.iter k clean_empty) (only parsing).

Lemma clean_n_succ k v : clean_n (S k) v = clean_empty (clean_n k v).
Proof. reflexivity. Qed.

Lemma clean_n_list k l : exists l', clean_n k (VList l) = VList l'.
Proof.
  induction k as [ | k [l' IH] ]; [ now exists l | ].
  rewrite clean_n_succ, IH, clean_empty_list. eauto.
Qed.

Lemma clean_n_dict k d : exists d', clean_n k (VDict d) = VDict d'.
Proof.
  induction k as [ | k [d' IH] ]; [ now exists d | ].
  rewrite clean_n_succ, IH, clean_empty_dict. eauto.
Qed.

(** An element's fate over [k] applications does not depend on the
    elements after it. *)
Lemma clean_n_list_cons k x l :
  forall l',
    clean_n k (VList l) = VList l' ->
    clean_n k (VList (x :: l)) =
      VList ((if survives k x then [clean_n k x] else []) ++ l').
Proof.
  induction k as [ | k IH ]; intros l' Hl.
  - injection Hl as <-. reflexivity.
  - destruct (clean_n_list k l) as [l0 Hl0].
    rewrite clean_n_succ, Hl0, clean_empty_list in Hl. injection Hl as <-.
    rewrite clean_n_succ, (IH _ Hl0), clean_empty_list, clean_elems_app.
    cbn [survives]. f_equal. f_equal.
    destruct (survives k x); cbn [andb]; [ | reflexivity ].
    now rewrite clean_elems_cons.
Qed.

Lemma clean_n_dict_cons k key x d :
  forall d',
    clean_n k (VDict d) = VDict d' ->
    clean_n k (VDict ((key, x) :: d)) =
      VDict ((if survives k x then [(key, clean_n k x)] else []) ++ d').
Proof.
  induction k as [ | k IH ]; intros d' Hd.
  - injection Hd as <-. reflexivity.
  - destruct (clean_n_dict k d) as [d0 Hd0].
    rewrite clean_n_succ, Hd0, clean_empty_dict in Hd. injection Hd as <-.
    rewrite clean_n_succ, (IH _ Hd0), clean_empty_dict, clean_items_app.
    cbn [survives]. f_equal. f_equal.
    destruct (survives k x); cbn [andb]; [ | reflexivity ].
    now rewrite clean_items_cons.
Qed.

Lemma height_list_cons x l :
  height (VList (x :: l)) = S (Nat.max (height x) (pred (height (VList l)))).
Proof. reflexivity. Qed.

Lemma height_dict_cons key x d :
  height (VDict ((key, x) :: d)) =
    S (Nat.max (height x) (pred (height (VDict d)))).
Proof. reflexivity. Qed.

(** Once a member has stopped changing, one more round decides nothing
    new about it. *)
Lemma survives_stable m x :
  clean_empty (clean_n m x) = clean_n m x ->
  survives (S (S m)) x = survives (S m) x /\
  clean_n (S (S m)) x = clean_n (S m) x.
Proof.
  intros Hfix. rewrite !clean_n_succ, Hfix, Hfix. split; [ | reflexivity ].
  cbn [survives]. rewrite clean_n_succ, Hfix.
  now destruct (survives m x), (passes (clean_n m x)).
Qed.

Lemma clean_n_stable v :
  forall n, (height v <= n)%nat -> clean_empty (clean_n n v) = clean_n n v.
Proof.
  induction v as [ | | | | | items IH | items IH ] using value_ind;
    try (intros n _; induction n as [ | n IHn ];
         [ reflexivity | now rewrite clean_n_succ, IHn ]).
  - induction items as [ | x l IHl ]; intros n Hn.
    + clear Hn. induction n as [ | n IHn ]; [ reflexivity | ].
      now rewrite clean_n_succ, IHn.
    + inversion IH as [ | ? ? IHx IHrest ]; subst.
      rewrite height_list_cons in Hn.
      destruct n as [ | m ]; [ lia | ].
      assert (Hx : (height x <= m)%nat) by lia.
      assert (Hl : (height (VList l) <= S m)%nat) by lia.
      specialize (IHl IHrest (S m) Hl). rewrite <- clean_n_succ in IHl.
      destruct (clean_n_list (S m) l) as [l1 Hl1].
      destruct (clean_n_list (S (S m)) l) as [l2 Hl2].
      assert (l2 = l1) as -> by congruence.
      rewrite <- clean_n_succ.
      rewrite (clean_n_list_cons _ _ _ _ Hl1), (clean_n_list_cons _ _ _ _ Hl2).
      destruct (survives_stable m x (IHx m Hx)) as [-> ->]. reflexivity.
  - induction items as [ | [key x] d IHd ]; intros n Hn.
    + clear Hn. induction n as [ | n IHn ]; [ reflexivity | ].
      now rewrite clean_n_succ, IHn.
    + inversion IH as [ | ? ? IHx IHrest ]; subst. cbn [snd] in IHx.
      rewrite height_dict_cons in Hn.
      destruct n as [ | m ]; [ lia | ].
      assert (Hx : (height x <= m)%nat) by lia.
      assert (Hd : (height (VDict d) <= S m)%nat) by lia.
      specialize (IHd IHrest (S m) Hd). rewrite <- clean_n_succ in IHd.
      destruct (clean_n_dict (S m) d) as [d1 Hd1].
      destruct (clean_n_dict (S (S m)) d) as [d2 Hd2].
      assert (d2 = d1) as -> by congruence.
      rewrite <- clean_n_succ.
      rewrite (clean_n_dict_cons _ _ _ _ _ Hd1), (clean_n_dict_cons _ _ _ _ _ Hd2).
      destruct (survives_stable m x (IHx m Hx)) as [-> ->]. reflexivity.
Qed.

(** X7.  Repeated normalization settles: after as many applications as the
    value is deep (or more), a further application changes nothing. *)
Theorem clean_empty_settles_within_depth (v : value) (n : nat) :
  (height v <= n)%nat ->
  clean_empty (Nat.iter n clean_empty v) = Nat.iter n clean_empty v.
Proof. apply clean_n_stable. Qed.

Lemma clean_empty_settles_within_depth_witness :
  clean_empty (Nat.iter 2 clean_empty sample_unfilled_vendor) =
    Nat.iter 2 clean_empty sample_unfilled_vendor /\
  Nat.iter 2 clean_empty sample_unfilled_vendor =
    VDict [(lit "invoice_no", VStr (lit "A1"))].
Proof.
  split.
  - apply clean_empty_settles_within_depth. vm_compute. lia.
  - vm_compute. reflexivity.
Defined.

(** ** More on the item extractor *)





(** ** More on the upload handler *)

Lemma record_name_some v name :
  record_name v = Some name ->
  exists d, v = VDict d /\ dict_get d (lit "filename") = Some (VStr name).
Proof.
  destruct v as [ | | | | | | d ]; try discriminate. cbn [record_name].
  destruct (dict_get d (lit "filename")) as [[ | | | | s | | ] | ] eqn:E;
    try discriminate.
  intros [= ->]. eauto.
Qed.

Lemma named_records (results : list value) (names : list str) :
  map record_name results = map Some names ->
  Forall (fun v => exists d name,
            v = VDict d /\ dict_get d (lit "filename") = Some (VStr name))
    results.
Proof.
  revert names. induction results as [ | v results IH ]; intros names Hmap;
    [ constructor | ].
  destruct names as [ | name names ]; [ discriminate | ].
  cbn [map] in Hmap. injection Hmap as Hv Hrest. constructor.
  - apply record_name_some in Hv as (d & -> & Hd). eauto.
  - eapply IH, Hrest.
Qed.

(** X9.  The four answers of [upload_image].  Without files: 400, no files
    uploaded.  With files: 500 with the message of the exception that ended
    the request; or 400, no valid images; or 200 with a list that is never
    empty, each of whose records is a dict with a [filename]. *)
Theorem upload_image_answers
    `{Collaborators W} (files : list FileStorage) (st : state W) :
  (files = [] /\
   fst (upload_image files st) = Response 400 (error_body no_files_uploaded)) \/
  (files <> [] /\
   exists e,
     fst (upload_image files st) =
       Response 500 (error_body (processing_failed ++ e))) \/
  (files <> [] /\
   fst (upload_image files st) = Response 400 (error_body no_valid_images)) \/
  (files <> [] /\
   exists record records,
     fst (upload_image files st) =
       Response 200 (VDict [(lit "invoices", VList (record :: records))]) /\
     Forall (fun v => exists d name,
               v = VDict d /\ dict_get d (lit "filename") = Some (VStr name))
       (record :: records)).
Proof.
  destruct files as [ | file files ]; [ left; split; reflexivity | right ].
  rewrite upload_image_files.
  destruct (for_files (file :: files) [] (loop_start st))
    as [[e | [ | record records]] st1] eqn:Hloop.
  - left. split; [ discriminate | eauto ].
  - right. left. split; [ discriminate | reflexivity ].
  - right. right. split; [ discriminate | ].
    exists record, records. split; [ reflexivity | ].
    apply for_files_spec in Hloop as [_ Hrs].
    destruct (Hrs _ eq_refl) as (new & names & Hnew & Hmap & _).
    cbn [app] in Hnew. subst new. eapply named_records, Hmap.
Qed.

Lemma for_zip_infos_app `{Collaborators W} (infos1 infos2 : list ZipInfo) :
  forall rs (st : state W),
    for_zip_infos (infos1 ++ infos2) rs st =
      match for_zip_infos infos1 rs st with
      | (inl e, st1) => (inl e, st1)
      | (inr rs1, st1) => for_zip_infos infos2 rs1 st1
      end.
Proof.
  induction infos1 as [ | zi infos1 IH ]; intros rs st; [ reflexivity | ].
  cbn [app]. rewrite !for_zip_infos_step.
  destruct (zi_is_dir zi); [ apply IH | ].
  destruct (zi_read zi); [ reflexivity | ].
  destruct (process_image _ st) as [[e | v] st1]; [ reflexivity | ].
  destruct (append_result _ _ rs st1) as [[e | rs1] st2]; [ reflexivity | apply IH ].
Qed.

Lemma upload_image_loop `{Collaborators W}
    (before after : list FileStorage) (file : FileStorage) (st : state W) :
  upload_image (before ++ file :: after) st =
    match for_files (before ++ file :: after) [] (loop_start st) with
    | (inl e, st1) =>
        (Response 500 (error_body (processing_failed ++ e)), st1)
    | (inr [], st1) =>
        (Response 400 (error_body no_valid_images),
         State (world st1) (log st1 ++ [ThreadJoin]))
    | (inr (r :: rs), st1) =>
        (Response 200 (VDict [(lit "invoices", VList (r :: rs))]),
         State (world st1) (log st1 ++ [ThreadJoin]))
    end.
Proof.
  destruct before as [ | f before ]; cbn [app]; apply upload_image_files.
Qed.

(** X10.  When the call to the model raises for an upload, the request is
    answered 500 with that message; the records of the uploads before it
    are dropped and the uploads after it are not looked at. *)
Theorem upload_image_model_failure
    `{Collaborators W} (before after : list FileStorage) (file : FileStorage)
    (st st1 : state W) (rs : list value) (e : exn) (w' : W) :
  is_zip_name file = false ->
  sniffed_as_image (content file) = true ->
  for_files before [] (loop_start st) = (inr rs, st1) ->
  generate_content (prompt_for (content file)) (world st1) = (inl e, w') ->
  upload_image (before ++ file :: after) st =
    (Response 500 (error_body (processing_failed ++ e)),
     State w' (log st ++ [SetProgress 0; ThreadStart])).
Proof.
  intros Hzip Hmime Hbefore Hgen.
  rewrite upload_image_loop, for_files_app, Hbefore, for_files_step, Hzip.
  rewrite (process_image_model_raises _ _ _ _ Hmime Hgen).
  apply for_files_spec in Hbefore as [-> _]. reflexivity.
Qed.

Lemma upload_image_model_failure_witness :
  upload_image
    ([Demo.upload "A.PNG" Demo.png_bytes] ++
     Demo.upload "b.png" Demo.png_bytes ::
     [Demo.upload "c.png" Demo.png_bytes])
    (State [inr (Demo.fenced (lit "{'invoice_no': 'A1'}"));
            inl (lit "429 Resource exhausted");
            inr (Demo.fenced (lit "{'invoice_no': 'C3'}"))] []) =
    (Response 500
       (error_body (processing_failed ++ lit "429 Resource exhausted")),
     State [inr (Demo.fenced (lit "{'invoice_no': 'C3'}"))]
       ([] ++ [SetProgress 0; ThreadStart])).
Proof.
  eapply (upload_image_model_failure (W := Demo.replies)).
  - vm_compute. reflexivity.
  - vm_compute. reflexivity.
  - vm_compute. reflexivity.
  - vm_compute. reflexivity.
Defined.

(** X11.  When an entry of an archive cannot be read, the request is
    answered 500 with that message: the entries and uploads before it were
    processed, their records are dropped, and nothing after it is looked
    at. *)
Theorem upload_image_unreadable_entry
    `{Collaborators W} (before after : list FileStorage) (file : FileStorage)
    (infos1 infos2 : list ZipInfo) (zi : ZipInfo)
    (st st1 st2 : state W) (rs rs2 : list value) (e : exn) :
  is_zip_name file = true ->
  zipfile_open (content file) = inr (infos1 ++ zi :: infos2) ->
  zi_is_dir zi = false ->
  zi_read zi = inl e ->
  for_files before [] (loop_start st) = (inr rs, st1) ->
  for_zip_infos infos1 rs st1 = (inr rs2, st2) ->
  upload_image (before ++ file :: after) st =
    (Response 500 (error_body (processing_failed ++ e)), st2).
Proof.
  intros Hzip Hopen Hdir Hread Hbefore Hinfos.
  rewrite upload_image_loop, for_files_app, Hbefore, for_files_step, Hzip, Hopen.
  rewrite for_zip_infos_app, Hinfos, for_zip_infos_step, Hdir, Hread.
  reflexivity.
Qed.

Lemma upload_image_unreadable_entry_witness :
  upload_image (H := Damaged.scripted)
    ([Demo.upload "A.PNG" Demo.png_bytes] ++
     Demo.upload "Scans.zip" Demo.archive_bytes ::
     [Demo.upload "c.png" Demo.png_bytes])
    (State [inr (Demo.fenced (lit "{'invoice_no': 'A1'}"));
            inr (Demo.fenced (lit "{'invoice_no': 'B2'}"));
            inr (Demo.fenced (lit "{'invoice_no': 'C3'}"))] []) =
    (Response 500
       (error_body (processing_failed ++ Damaged.locked_message)),
     State [inr (Demo.fenced (lit "{'invoice_no': 'C3'}"))]
       [SetProgress 0; ThreadStart]).
Proof.
  eapply (upload_image_unreadable_entry (H := Damaged.scripted)
            _ _ _
            [ {| zi_filename := lit "scans/a.png"; zi_is_dir := false;
                 zi_read := inr Demo.png_bytes |} ]).
  - vm_compute. reflexivity.
  - vm_compute. reflexivity.
  - reflexivity.
  - reflexivity.
  - vm_compute. reflexivity.
  - vm_compute. reflexivity.
Defined.

Lemma entry_items_folders infos :
  forallb zi_is_dir infos = true -> entry_items infos = Some [].
Proof.
  induction infos as [ | zi infos IH ]; [ reflexivity | ].
  cbn [forallb entry_items]. intros Hall.
  apply andb_true_iff in Hall as [-> Hall]. now apply IH.
Qed.

(** X12.  Directory entries are skipped without being read.  A request all
    of whose uploads are archives that list nothing but directories is
    answered 400, no valid images; neither the model nor the clock is
    called, whatever reading those entries would give. *)
Theorem upload_image_folders_only
    `{Collaborators W} (files : list FileStorage) (st : state W) :
  files <> [] ->
  forallb (fun file =>
             is_zip_name file &&
             match zipfile_open (content file) with
             | inr infos => forallb zi_is_dir infos
             | inl _ => false
             end) files = true ->
  upload_image files st =
    (Response 400 (error_body no_valid_images),
     State (world st) (log st ++ [SetProgress 0; ThreadStart; ThreadJoin])).
Proof.
  intros Hfiles Hall.
  assert (Hitems : batch_items files = Some []).
  { clear Hfiles. induction files as [ | file files IH ]; [ reflexivity | ].
    cbn [forallb] in Hall. apply andb_true_iff in Hall as [Hfile Hall].
    apply andb_true_iff in Hfile as [Hzip Hopen].
    cbn [batch_items]. unfold file_items. rewrite Hzip, (IH Hall).
    destruct (zipfile_open (content file)) as [e | infos]; [ discriminate | ].
    now rewrite (entry_items_folders _ Hopen). }
  destruct files as [ | file files ]; [ congruence | ].
  rewrite upload_image_files.
  rewrite (for_files_all_fail _ [] [] (loop_start st) (world st) Hitems eq_refl).
  unfold loop_start. cbn [world log]. now rewrite <- app_assoc.
Qed.

Lemma upload_image_folders_only_witness :
  upload_image (H := Damaged.scripted_folders)
    [Demo.upload "Scans.zip" Demo.archive_bytes]
    (State [inr (Demo.fenced (lit "{'invoice_no': 'A1'}"))] []) =
    (Response 400 (error_body no_valid_images),
     State [inr (Demo.fenced (lit "{'invoice_no': 'A1'}"))]
       ([] ++ [SetProgress 0; ThreadStart; ThreadJoin])).
Proof.
  apply (upload_image_folders_only (H := Damaged.scripted_folders)).
  - discriminate.
  - vm_compute. reflexivity.
Defined.

(** X13.  The records are named by assignment: a result that is a non-empty
    dict is appended with [filename] set to the item's name, whatever
    [filename] the reply held, and with every other field as it was;
    [None] and the empty dict are skipped. *)
Theorem append_result_names_record
    {W} (d : list (str * value)) (name : str) (rs : list value) (st : state W) :
  (d <> [] ->
   exists d',
     append_result (VDict d) name rs st = (inr (rs ++ [VDict d']), st) /\
     dict_get d' (lit "filename") = Some (VStr name) /\
     forall k, k <> lit "filename" -> dict_get d' k = dict_get d k) /\
  append_result VNone name rs st = (inr rs, st) /\
  append_result (VDict []) name rs st = (inr rs, st).
Proof.
  split; [ | split; reflexivity ].
  intros Hd. destruct d as [ | kv d ]; [ congruence | ].
  exists (dict_set (kv :: d) (lit "filename") (VStr name)).
  split; [ reflexivity | ]. split; [ apply dict_get_set | ].
  intros k Hk. now apply dict_get_set_other.
Qed.

Lemma append_result_names_record_witness :
  exists d',
    append_result
      (VDict [(lit "filename", VStr (lit "scan-7.pdf")); (lit "total", VInt 40)])
      (lit "a.png") [] (State ([] : Demo.replies) []) =
      (inr ([] ++ [VDict d']), State [] []) /\
    dict_get d' (lit "filename") = Some (VStr (lit "a.png")) /\
    forall k, k <> lit "filename" ->
      dict_get d' k =
        dict_get [(lit "filename", VStr (lit "scan-7.pdf")); (lit "total", VInt 40)] k.
Proof.
  apply (append_result_names_record (W := Demo.replies)). discriminate.
Defined.

(** X14.  Whenever the background thread has made its last assignment the
    counter holds 100, also for a request that was answered 500 without a
    join: the thread outlives the response and still runs to the end. *)
Theorem counter_full_when_thread_ends
    `{Collaborators W} (files : list FileStorage) (w : W) (p : Z)
    (c : Tracker.config) :
  rtc Tracker.step (Tracker.arrival p (upload_actions files w)) c ->
  Tracker.advancer c = Some [] ->
  Tracker.progress c = 100%Z.
Proof.
  intros Hrun Hend.
  assert (Hshape : exists tail,
             upload_actions files w = SetProgress 0 :: tail /\
             Forall (fun a => a = ThreadStart \/ a = ThreadJoin) tail).
  { destruct (upload_actions_cases files w)
      as [(_ & ->) | [(_ & _ & ->) | (_ & _ & ->)]];
      eexists; (split; [ reflexivity | ]);
      repeat first [ apply Forall_nil_2 | apply Forall_cons_2; [ auto | ] ]. }
  destruct Hshape as (tail & Hactions & Htail). rewrite Hactions in Hrun.
  apply rtc_inv in Hrun as [<- | (c1 & Hstep & Hrun)]; [ discriminate | ].
  rewrite (TrackerFacts.arrival_first_step _ _ _ Hstep) in Hrun.
  assert (Hfirst : Tracker.in_step (Tracker.Config 0 tail None))
    by (split; [ exact Htail | reflexivity ]).
  destruct (TrackerFacts.in_step_rtc _ _ Hfirst Hrun) as [[_ Hadv] _].
  rewrite Hend in Hadv. destruct Hadv as (n & Hn & Hws & ->).
  destruct (100 - n)%nat eqn:Hm; [ lia | discriminate ].
Qed.

Lemma counter_full_when_thread_ends_witness :
  status (upload_response Samples.corrupt_archive_batch
            Samples.corrupt_archive_replies) = 500%Z /\
  Tracker.progress
    (Tracker.run ([true; true] ++ replicate 100 false)
       (Tracker.arrival 37
          (upload_actions Samples.corrupt_archive_batch
             Samples.corrupt_archive_replies))) = 100%Z.
Proof.
  split; [ vm_compute; reflexivity | ].
  eapply (counter_full_when_thread_ends Samples.corrupt_archive_batch
            Samples.corrupt_archive_replies 37).
  - apply TrackerFacts.run_rtc.
  - vm_compute. reflexivity.
Defined.

Section Composition.
Context `{Collaborators W}.

(** The loops neither read the log nor the records gathered so far: run
    from an empty log and an empty list, they tell what they do from any. *)
Lemma process_image_frame image_data (w : W) (l : list action) :
  process_image image_data (State w l) =
    (fst (process_image image_data (State w [])),
     State (world (snd (process_image image_data (State w [])))) l).
Proof.
  destruct (sniffed_as_image image_data) eqn:Hmime.
  - destruct (generate_content (prompt_for image_data) w) as [[e | text] w'] eqn:Hgen.
    + rewrite !(process_image_model_raises _ _ e w' Hmime) by exact Hgen.
      reflexivity.
    + rewrite !(process_image_model_replies _ _ text w' Hmime) by exact Hgen.
      repeat case_match; reflexivity.
  - rewrite !process_image_not_image by exact Hmime. reflexivity.
Qed.

Lemma append_result_pure v name :
  exists r : exn + list value,
    forall rs (st : state W),
      append_result v name rs st =
        (match r with
         | inr new => inr (rs ++ new)
         | inl e => inl e
         end, st).
Proof.
  unfold append_result. destruct (truthy v).
  - unfold setitem.
    destruct v; unfold_monad;
      first [ (eexists (inl _); intros; reflexivity)
            | (eexists (inr [_]); intros; reflexivity) ].
  - exists (inr []). intros rs st. unfold_monad. now rewrite app_nil_r.
Qed.

Lemma for_zip_infos_frame infos :
  forall rs (w : W) l,
    for_zip_infos infos rs (State w l) =
      framed rs l (for_zip_infos infos [] (State w [])).
Proof.
  induction infos as [ | zi infos IH ]; intros rs w l.
  - cbn. now rewrite app_nil_r.
  - rewrite !for_zip_infos_step.
    destruct (zi_is_dir zi); [ apply IH | ].
    destruct (zi_read zi) as [e | image_bytes]; [ reflexivity | ].
    rewrite (process_image_frame image_bytes w l).
    destruct (process_image image_bytes (State w [])) as [[e | v] [w1 l1]] eqn:Hp;
      cbn [fst snd world]; [ reflexivity | ].
    apply process_image_log in Hp. cbn [log] in Hp. subst l1.
    destruct (append_result_pure v (zi_filename zi)) as [[e | new] Happ];
      rewrite !Happ; [ reflexivity | ].
    cbn [app]. rewrite (IH (rs ++ new)), (IH new).
    destruct (for_zip_infos infos [] (State w1 [])) as [[e | new'] st3];
      cbn [framed world]; [ reflexivity | ].
    now rewrite app_assoc.
Qed.

Lemma for_files_frame files :
  forall rs (w : W) l,
    for_files files rs (State w l) =
      framed rs l (for_files files [] (State w [])).
Proof.
  induction files as [ | file files IH ]; intros rs w l.
  - cbn. now rewrite app_nil_r.
  - rewrite !for_files_step. destruct (is_zip_name file).
    + destruct (zipfile_open (content file)) as [e | z]; [ reflexivity | ].
      rewrite (for_zip_infos_frame z rs w l).
      destruct (for_zip_infos z [] (State w [])) as [[e | new] [w1 l1]] eqn:Hz;
        cbn [framed world]; [ reflexivity | ].
      apply for_zip_infos_spec in Hz as [Hlog _]. cbn [log] in Hlog. subst l1.
      rewrite (IH (rs ++ new)), (IH new).
      destruct (for_files files [] (State w1 [])) as [[e | new'] st3];
        cbn [framed world]; [ reflexivity | ].
      now rewrite app_assoc.
    + rewrite (process_image_frame (content file) w l).
      destruct (process_image (content file) (State w [])) as [[e | v] [w1 l1]] eqn:Hp;
        cbn [fst snd world]; [ reflexivity | ].
      apply process_image_log in Hp. cbn [log] in Hp. subst l1.
      destruct (append_result_pure v (str_lower (filename file))) as [[e | new] Happ];
        rewrite !Happ; [ reflexivity | ].
      cbn [app]. rewrite (IH (rs ++ new)), (IH new).
      destruct (for_files files [] (State w1 [])) as [[e | new'] st3];
        cbn [framed world]; [ reflexivity | ].
      now rewrite app_assoc.
Qed.

End Composition.

(** X15.  Requests compose.  If a request is answered 200 and a second
    request, made in the world the first one leaves, is answered 200 as
    well, then the one request that uploads the files of both is answered
    200 with the records of the first followed by the records of the
    second, and leaves the world the second one leaves. *)
Theorem upload_image_concatenates
    `{Collaborators W} (files1 files2 : list FileStorage)
    (st st1 st2 : state W) (rs1 rs2 : list value) :
  upload_image files1 st =
    (Response 200 (VDict [(lit "invoices", VList rs1)]), st1) ->
  upload_image files2 (State (world st1) []) =
    (Response 200 (VDict [(lit "invoices", VList rs2)]), st2) ->
  upload_image (files1 ++ files2) st =
    (Response 200 (VDict [(lit "invoices", VList (rs1 ++ rs2))]),
     State (world st2) (log st ++ [SetProgress 0; ThreadStart; ThreadJoin])).
Proof.
  intros H1 H2.
  destruct files1 as [ | f1 l1 ];
    [ rewrite upload_image_no_files in H1; discriminate | ].
  destruct files2 as [ | f2 l2 ];
    [ rewrite upload_image_no_files in H2; discriminate | ].
  rewrite upload_image_files in H1, H2.
  destruct (for_files (f1 :: l1) [] (loop_start st))
    as [[e | [ | r rs]] [wa la]] eqn:Ha; try discriminate.
  injection H1 as <- <-. cbn [world] in H2.
  pose proof Ha as Hlog. apply for_files_spec in Hlog as [Hlog _].
  cbn [log loop_start] in Hlog. subst la.
  unfold loop_start in H2. cbn [world log] in H2.
  rewrite for_files_frame in H2.
  change ((f1 :: l1) ++ f2 :: l2) with (f1 :: (l1 ++ f2 :: l2)).
  rewrite upload_image_files.
  change (f1 :: (l1 ++ f2 :: l2)) with ((f1 :: l1) ++ f2 :: l2).
  rewrite for_files_app, Ha, for_files_frame.
  destruct (for_files (f2 :: l2) [] (State wa [])) as [[e | new] stc];
    cbn [framed app] in *; [ discriminate | ].
  destruct new as [ | r2 new ]; [ discriminate | ].
  injection H2 as <- <-. cbn [world log].
  rewrite <- app_assoc. reflexivity.
Qed.

Lemma upload_image_concatenates_witness :
  upload_image
    ([Demo.upload "A.PNG" Demo.png_bytes] ++ [Demo.upload "b.png" Demo.png_bytes])
    (State [inr (Demo.fenced (lit "{'invoice_no': 'A1'}"));
            inr (Demo.fenced (lit "{'invoice_no': 'B2'}"))] []) =
    (Response 200
       (VDict [(lit "invoices",
                VList
                  ([VDict [(lit "invoice_no", VStr (lit "A1"));
                           (lit "timestamp",
                            VStr (lit "2024-05-01T10:00:00.000000+00:00"));
                           (lit "filename", VStr (lit "a.png"))]] ++
                   [VDict [(lit "invoice_no", VStr (lit "B2"));
                           (lit "timestamp",
                            VStr (lit "2024-05-01T10:00:00.000000+00:00"));
                           (lit "filename", VStr (lit "b.png"))]]))]),
     State [] ([] ++ [SetProgress 0; ThreadStart; ThreadJoin])).
Proof.
  apply (upload_image_concatenates (W := Demo.replies)
           [Demo.upload "A.PNG" Demo.png_bytes]
           [Demo.upload "b.png" Demo.png_bytes]
           (State [inr (Demo.fenced (lit "{'invoice_no': 'A1'}"));
                   inr (Demo.fenced (lit "{'invoice_no': 'B2'}"))] [])
           (State [inr (Demo.fenced (lit "{'invoice_no': 'B2'}"))]
              [SetProgress 0; ThreadStart; ThreadJoin])
           (State [] [SetProgress 0; ThreadStart; ThreadJoin])).
  - vm_compute. reflexivity.
  - vm_compute. reflexivity.
Defined.

(** X16.  A reply that parses to the empty object counts as no result: the
    extractor returns it unstamped, without reading the clock, and the
    handler drops it, so a request whose only upload is answered that way
    gets 400, no valid images. *)
Theorem upload_image_empty_object_reply
    `{Collaborators W} (file : FileStorage) (st : state W) (text : str) (w' : W) :
  is_zip_name file = false ->
  sniffed_as_image (content file) = true ->
  generate_content (prompt_for (content file)) (world st) = (inr text, w') ->
  parse_json text = VDict [] ->
  process_image (content file) st = (inr (VDict []), State w' (log st)) /\
  upload_image [file] st =
    (Response 400 (error_body no_valid_images),
     State w' (log st ++ [SetProgress 0; ThreadStart; ThreadJoin])).
Proof.
  intros Hzip Hmime Hgen Hparse. split.
  - now rewrite (process_image_model_replies _ _ _ _ Hmime Hgen), Hparse.
  - rewrite upload_image_files, for_files_step, Hzip.
    rewrite (process_image_model_replies _ (loop_start st) text w' Hmime)
      by exact Hgen.
    rewrite Hparse. cbn -[app].
    now rewrite <- app_assoc.
Qed.

Lemma upload_image_empty_object_reply_witness :
  process_image Demo.png_bytes (State [inr (lit "Nothing found: {}")] []) =
    (inr (VDict []), State [] []) /\
  upload_image [Demo.upload "A.PNG" Demo.png_bytes]
    (State [inr (lit "Nothing found: {}")] []) =
    (Response 400 (error_body no_valid_images),
     State [] ([] ++ [SetProgress 0; ThreadStart; ThreadJoin])).
Proof.
  apply (upload_image_empty_object_reply (W := Demo.replies)
           (Demo.upload "A.PNG" Demo.png_bytes)
           (State [inr (lit "Nothing found: {}")] [])
           (lit "Nothing found: {}") []).
  - vm_compute. reflexivity.
  - vm_compute. reflexivity.
  - vm_compute. reflexivity.
  - vm_compute. reflexivity.
Defined.



(** X18.  A thread left running by an earlier request breaks the order of
    the reads of the next one: if that thread is about to assign a value
    above 1 when a request with files arrives, the counter can be read as 0
    after the reset, then as that value, then as 1 once the new thread
    starts writing. *)
Theorem reads_decrease_beside_earlier_thread
    `{Collaborators W} (files : list FileStorage) (w : W) (p v : Z)
    (ws : list Z) (threads : list (list Z)) :
  files <> [] ->
  (1 < v)%Z ->
  exists r1 r2,
    Shared.reads
      [Shared.Handler; Shared.Handler; Shared.Earlier 0; Shared.Own]
      (Shared.arrival p (upload_actions files w) ((v :: ws) :: threads))
    = [0%Z; 0%Z; r1; r2] /\
    (r2 < r1)%Z.
Proof.
  intros Hfiles Hv. exists v, 1%Z. split; [ | exact Hv ].
  destruct (upload_actions_cases files w)
    as [(Hf & _) | [(_ & _ & ->) | (_ & _ & ->)]];
    [ contradiction | reflexivity | reflexivity ].
Qed.

Lemma reads_decrease_beside_earlier_thread_witness :
  exists r1 r2,
    Shared.reads
      [Shared.Handler; Shared.Handler; Shared.Earlier 0; Shared.Own]
      (Shared.arrival 59
         (upload_actions Samples.mixed_batch Samples.mixed_replies)
         ((60%Z :: drop 60 simulate_progress) :: []))
    = [0%Z; 0%Z; r1; r2] /\
    (r2 < r1)%Z.
Proof.
  apply (reads_decrease_beside_earlier_thread
           Samples.mixed_batch Samples.mixed_replies 59 60
           (drop 60 simulate_progress) []).
  - discriminate.
  - lia.
Defined.
